(** * Verification of the git workflow helpers of to-self / to-test / to-main

    Shallow embedding of [src/unnamed/part_006] (utils/index.ts and mr.ts),
    [src/src/utils/mr.ts] and [src/src/core/toMain.ts].

    Strings are Stdlib [string]s (ASCII characters).  The JavaScript
    whitespace class ([\s], and the set removed by [String.prototype.trim])
    is restricted to its ASCII members: TAB, LF, VT, FF, CR and SPACE.

    The git repository and the interactive terminal are a scripted backend
    ([Repo]): every query the code makes returns the scripted answer, and
    every command the code runs is recorded as an [Event] in a trace, so
    "no side effect" statements are statements about the trace. *)

From Stdlib Require Import String Ascii List Bool Arith Lia.
Import ListNotations.
Open Scope string_scope.
Open Scope bool_scope.
Open Scope nat_scope.

(* ------------------------------------------------------------------ *)
(** ** JavaScript string primitives *)

Module JS.

(** Characters of the ASCII part of JavaScript's [WhiteSpace] and
    [LineTerminator] sets (the set of [\s] and of [trim]). *)
Definition is_space (c : ascii) : bool :=
  match nat_of_ascii c with
  | 9 | 10 | 11 | 12 | 13 | 32 => true
  | _ => false
  end.

Fixpoint trim_start (s : string) : string :=
  match s with
  | EmptyString => EmptyString
  | String c r => if is_space c then trim_start r else s
  end.

Fixpoint trim_end (s : string) : string :=
  match s with
  | EmptyString => EmptyString
  | String c r =>
      let r' := trim_end r in
      if is_space c && String.eqb r' "" then "" else String c r'
  end.

(** [String.prototype.trim]. *)
Definition trim (s : string) : string := trim_end (trim_start s).

(** JavaScript truthiness of an optional string ([undefined] and [""] are
    falsy). *)
Definition truthy (o : option string) : bool :=
  match o with
  | Some s => negb (String.eqb s "")
  | None => false
  end.

(** Truthiness of an optional value that is never [""] when present. *)
Definition isSome {A} (o : option A) : bool :=
  match o with Some _ => true | None => false end.

Definition or_empty (o : option string) : string :=
  match o with Some s => s | None => "" end.

(** [s.startsWith(p)]. *)
Fixpoint starts_with (p s : string) : bool :=
  match p, s with
  | EmptyString, _ => true
  | String c p', String d s' => Ascii.eqb c d && starts_with p' s'
  | String _ _, EmptyString => false
  end.

(** [s.includes(p)]. *)
Fixpoint includes (p s : string) : bool :=
  starts_with p s ||
  match s with
  | EmptyString => false
  | String _ s' => includes p s'
  end.

(** [s.indexOf(c, from)] for a one-character needle; [None] is [-1]. *)
Fixpoint index_of_from (c : ascii) (s : string) (from : nat) : option nat :=
  match from, s with
  | _, EmptyString => None
  | O, String d r =>
      if Ascii.eqb c d then Some 0
      else option_map S (index_of_from c r 0)
  | S f, String _ r => option_map S (index_of_from c r f)
  end.

(** [s.slice(i)] and [s.slice(i, j)] for [0 <= i <= j]. *)
Definition slice_from (s : string) (i : nat) : string :=
  substring i (String.length s - i) s.
Definition slice (s : string) (i j : nat) : string :=
  substring i (j - i) s.

(** [arr.join(sep)]. *)
Fixpoint join (sep : string) (xs : list string) : string :=
  match xs with
  | [] => ""
  | [x] => x
  | x :: rest => x ++ sep ++ join sep rest
  end.

(** [s.split(sep)] for a one-character separator. *)
Fixpoint split (sep : ascii) (s : string) : list string :=
  match s with
  | EmptyString => [""]
  | String c r =>
      match split sep r with
      | [] => [""]
      | w :: ws => if Ascii.eqb c sep then "" :: w :: ws else String c w :: ws
      end
  end.

End JS.

Import JS.

(* ------------------------------------------------------------------ *)
(** ** Commit types and the conventional-prefix test *)

(** [COMMIT_TYPES] (utils/constant.ts), by their [value]. *)
Definition COMMIT_TYPES : list string :=
  ["feat"; "fix"; "to"; "docs"; "style"; "refactor"; "perf"; "test";
   "chore"; "revert"; "merge"; "sync"].

(** [isRecognizedCommitType]. *)
Definition isRecognizedCommitType (value : option string) : bool :=
  match value with
  | None => false
  | Some v => if String.eqb v "" then false
              else existsb (String.eqb v) COMMIT_TYPES
  end.

Definition is_lower (c : ascii) : bool :=
  let n := nat_of_ascii c in ((97 <=? n) && (n <=? 122))%nat.

(** Length of the leading [[a-z]] run and the rest of the string. *)
Fixpoint lower_run (s : string) : nat * string :=
  match s with
  | String c r => if is_lower c then let (n, r') := lower_run r in (S n, r')
                  else (0, s)
  | EmptyString => (0, EmptyString)
  end.

(** Length of the leading [[^)]] run and the rest of the string. *)
Fixpoint scope_run (s : string) : nat * string :=
  match s with
  | String c r => if Ascii.eqb c ")" then (0, s)
                  else let (n, r') := scope_run r in (S n, r')
  | EmptyString => (0, EmptyString)
  end.

(** The regular expression [/^[a-z]+(\([^)]+\))?!?:\s+/] of
    [hasConventionalPrefix], tested on a string.  Every quantifier of the
    expression is followed by a character its class excludes, so the
    backtracking matcher has exactly one way to succeed; the functions
    below follow that single path. *)
Definition after_colon (s : string) : bool :=
  match s with
  | String c (String d _) => Ascii.eqb c ":" && is_space d
  | _ => false
  end.

Definition after_scope (s : string) : bool :=
  match s with
  | String c r => if Ascii.eqb c "!" then after_colon r else after_colon s
  | EmptyString => false
  end.

Definition after_type (s : string) : bool :=
  match s with
  | String c r =>
      if Ascii.eqb c "(" then
        let (k, r') := scope_run r in
        match r' with
        | String d r'' => (0 <? k) && Ascii.eqb d ")" && after_scope r''
        | EmptyString => false
        end
      else after_scope s
  | EmptyString => false
  end.

Definition prefix_regex_test (s : string) : bool :=
  let (n, r) := lower_run s in (0 <? n) && after_type r.

(** [hasConventionalPrefix(message)]. *)
Definition hasConventionalPrefix (message : string) : bool :=
  prefix_regex_test (trim message).

Example prefix_examples :
  map hasConventionalPrefix
    ["feat: x"; "feat(core): x"; "fix!: y"; "feat(a b)!:  z"; " docs:	t ";
     "feat:x"; "Feat: x"; "feat(): x"; "feat(x: y"; "x"; ": x"; "feat"]
  = [true; true; true; true; true; false; false; false; false; false; false; false].
Proof. reflexivity. Qed.

(* ------------------------------------------------------------------ *)
(** ** The scripted repository, the trace and the error monad *)

(** Answers of the repository and of the terminal to the queries the code
    makes.  [r_upstream] is the output of
    [git rev-parse --abbrev-ref --symbolic-full-name @{u}] ([None] when the
    command fails); [r_ls_remote] the output of [git ls-remote --heads]
    ([None] when it fails); [r_conflicted] is [status().conflicted] after a
    failed pull or merge; [r_on_path] is the exit status of [which];
    [r_run] the exit code, stdout and stderr of a provider CLI.  The
    [r_*_answer] fields are what the prompts return. *)
Record Repo := {
  r_is_repo : bool;
  r_current : string;
  r_status_files : list string;
  r_staged : string;
  r_tty : bool;
  r_subject_answer : string;
  r_type_answer : string;
  r_scope_answer : string;
  r_upstream : option string;
  r_remotes : list string;
  r_ls_remote : string -> string -> option string;
  r_pull_ok : bool;
  r_fetch_ok : bool;
  r_merge_ok : bool;
  r_conflicted : list string;
  r_remote_url : string -> string;
  r_on_path : string -> bool;
  r_run : string -> list string -> nat * string * string
}.

(** Every git command, prompt, external process, error-stream write and
    [logSuccess] line the code performs, in order.  Progress logging
    ([logStep], [logWarning], [logHeading] and the listing of changed
    files) is not recorded. *)
Inductive Event :=
| EvCheckIsRepo
| EvBranch
| EvStatus
| EvAdd (args : list string)
| EvDiffCached
| EvCommit (message : string)
| EvPromptSubject
| EvPromptType
| EvPromptScope
| EvRevParseUpstream
| EvGetRemotes
| EvLsRemote (remote branch : string)
| EvPull (args : option (string * string))
| EvPush (remote branch : string) (options : list string)
| EvFetch (remote branch : string)
| EvMerge (ref : string)
| EvRemoteGetUrl (remote : string)
| EvWhich (tool : string)
| EvRun (tool : string) (args : list string)
| EvStderr (text : string)
| EvSuccess (text : string).

(** Events that change the repository or the hosting provider. *)
Definition mutates (e : Event) : bool :=
  match e with
  | EvAdd _ | EvCommit _ | EvPull _ | EvPush _ _ _ | EvFetch _ _
  | EvMerge _ | EvRun _ _ => true
  | _ => false
  end.

(** The errors the code throws, one constructor per [throw] site;
    [EGitCommand] is a rejected git command that the code does not catch
    itself. *)
Inductive GitError :=
| ENotRepo
| EDetachedHead
| EInvalidSourceBranch (target : string)
| EUnknownCommitType (candidate : string)
| EMissingMessage
| EMissingTypePrefix
| ENoRemote
| EConflict (rerun : string)
| EPullFailed
| EMergeFailed
| EToolFailed (message : string)
| ENoTool (hint : string)
| EGitCommand (command : string).

(** The message of each error, as in the source. *)
Definition error_message (e : GitError) : string :=
  match e with
  | ENotRepo => "not inside a git repository"
  | EDetachedHead => "detached HEAD; checkout a branch first"
  | EInvalidSourceBranch t =>
      "cannot run to-main on '" ++ t ++ "' branch; checkout another branch first"
  | EUnknownCommitType c => "unknown commit type: " ++ c ++ " (allowed: "
                             ++ join ", " COMMIT_TYPES ++ ")"
  | EMissingMessage =>
      "working tree has changes; pass --message in non-interactive mode"
  | EMissingTypePrefix =>
      "commit message has no type prefix; pass --type or use an already-prefixed message like 'feat: ...'"
  | ENoRemote => "no git remotes found (expected 'origin')"
  | EConflict r => "please resolve conflicts, then rerun " ++ r
  | EPullFailed => "git pull failed; please fix and rerun"
  | EMergeFailed => "git merge failed; please fix and rerun"
  | EToolFailed m => m
  | ENoTool h => h
  | EGitCommand c => c
  end.

(** The error kinds of the specification's taxonomy. *)
Inductive ErrorKind :=
| NotAGitRepository | DetachedHead | InvalidSourceBranch
| UnknownCommitType | MissingCommitMetadata | NoRemoteConfigured
| MergeConflict | SyncFailed | ProviderCliFailed
| NoMergeRequestToolAvailable | GitCommandFailed.

Definition kind (e : GitError) : ErrorKind :=
  match e with
  | ENotRepo => NotAGitRepository
  | EDetachedHead => DetachedHead
  | EInvalidSourceBranch _ => InvalidSourceBranch
  | EUnknownCommitType _ => UnknownCommitType
  | EMissingMessage | EMissingTypePrefix => MissingCommitMetadata
  | ENoRemote => NoRemoteConfigured
  | EConflict _ => MergeConflict
  | EPullFailed | EMergeFailed => SyncFailed
  | EToolFailed _ => ProviderCliFailed
  | ENoTool _ => NoMergeRequestToolAvailable
  | EGitCommand _ => GitCommandFailed
  end.

(** A reader (the repository), writer (the trace) and error monad: the
    [async] functions of the source, which either resolve or reject. *)
Definition M (A : Type) : Type := Repo -> list Event * (GitError + A).

Definition ret {A} (a : A) : M A := fun _ => ([], inr a).
Definition throw {A} (e : GitError) : M A := fun _ => ([], inl e).
Definition bind {A B} (m : M A) (f : A -> M B) : M B :=
  fun g =>
    let (t1, r) := m g in
    match r with
    | inl e => (t1, inl e)
    | inr a => let (t2, r2) := f a g in ((t1 ++ t2)%list, r2)
    end.
(** [try { m } catch { h }]. *)
Definition catch {A} (m : M A) (h : M A) : M A :=
  fun g =>
    let (t1, r) := m g in
    match r with
    | inl _ => let (t2, r2) := h g in ((t1 ++ t2)%list, r2)
    | inr a => (t1, inr a)
    end.
(** Run a command or query, recorded as [e], answered by [f]. *)
Definition query {A} (e : Event) (f : Repo -> A) : M A := fun g => ([e], inr (f g)).
Definition emit (e : Event) : M unit := query e (fun _ => tt).
Definition ask {A} (f : Repo -> A) : M A := fun g => ([], inr (f g)).

Notation "x <- m ;; k" := (bind m (fun x => k))
  (at level 61, m at next level, right associativity).
Notation "m ;; k" := (bind m (fun _ => k)) (at level 61, right associativity).

Definition trace {A} (m : M A) (g : Repo) : list Event := fst (m g).
Definition outcome {A} (m : M A) (g : Repo) : GitError + A := snd (m g).

(* ------------------------------------------------------------------ *)
(** ** Repository inspector and remote resolver *)

(** [getRemoteFromUpstream]. *)
Definition getRemoteFromUpstream (upstream : string) : option string :=
  match index_of_from "/" upstream 0 with
  | None | Some 0 => None
  | Some slashIndex => Some (slice upstream 0 slashIndex)
  end.

(** [getUpstreamRef]: a failed [rev-parse] is caught and read as "no
    upstream". *)
Definition normalize_upstream (out : option string) : option string :=
  match out with
  | None => None
  | Some o => let upstream := trim o in
              if String.eqb upstream "" then None else Some upstream
  end.

Definition getUpstreamRef : M (option string) :=
  out <- query EvRevParseUpstream r_upstream ;;
  ret (normalize_upstream out).

(** [getPreferredRemote]. *)
Definition getPreferredRemote : M string :=
  let from_remotes :=
    names <- query EvGetRemotes r_remotes ;;
    if existsb (String.eqb "origin") names then ret "origin"
    else match names with
         | n :: _ => ret n
         | [] => throw ENoRemote
         end in
  upstream <- getUpstreamRef ;;
  match upstream with
  | Some u => match getRemoteFromUpstream u with
              | Some remote => ret remote
              | None => from_remotes
              end
  | None => from_remotes
  end.

(** [remoteBranchExists]: a failed [ls-remote] is caught and read as
    [false]. *)
Definition remoteBranchExists (remote branch : string) : M bool :=
  out <- query (EvLsRemote remote branch) (fun g => r_ls_remote g remote branch) ;;
  ret (match out with
       | None => false
       | Some o => negb (String.eqb (trim o) "")
       end).

(* ------------------------------------------------------------------ *)
(** ** Commit preparer *)

(** The three prompts: [promptCommitSubject] trims its answer,
    [promptCommitType] returns the chosen [COMMIT_TYPES] value and
    [promptCommitScope] the chosen or typed scope. *)
Definition promptCommitSubject : M string :=
  query EvPromptSubject (fun g => trim (r_subject_answer g)).
Definition promptCommitType : M string := query EvPromptType r_type_answer.
Definition promptCommitScope : M string := query EvPromptScope r_scope_answer.

Record CommitOptions := {
  commitMessage : option string;
  commitType : option string
}.

(** The [finalMessage] expression of [commitIfDirty]. *)
Definition finalMessage (message : string) (ctype : option string)
    (scope : string) : string :=
  if hasConventionalPrefix message || negb (isSome ctype) then message
  else let t := or_empty ctype in
       if negb (String.eqb scope "")
       then t ++ "(" ++ scope ++ "): " ++ trim message
       else t ++ ": " ++ trim message.

(** [commitIfDirty]; [message0] and [type0] are the initial values of the
    source's [let message] and [let type]. *)
Definition commitIfDirty (options : CommitOptions) : M unit :=
  files <- query EvStatus r_status_files ;;
  if Nat.eqb (length files) 0 then ret tt else
  emit (EvAdd ["-A"]) ;;
  staged0 <- query EvDiffCached r_staged ;;
  if String.eqb (trim staged0) "" then ret tt else
  tty <- ask r_tty ;;
  let message0 := option_map trim (commitMessage options) in
  let shouldPromptScope := tty && negb (truthy (commitMessage options)) in
  type0 <- (if truthy (commitType options) then
              let candidate := trim (or_empty (commitType options)) in
              if isRecognizedCommitType (Some candidate) then ret (Some candidate)
              else throw (EUnknownCommitType candidate)
            else ret None) ;;
  mt <- (if negb (truthy message0) || negb (isSome type0) then
           (if negb tty then
              if negb (truthy message0) then throw EMissingMessage
              else if negb (isSome type0)
                      && negb (hasConventionalPrefix (or_empty message0))
                   then throw EMissingTypePrefix
                   else ret tt
            else ret tt) ;;
           message <- (if negb (truthy message0) then promptCommitSubject
                       else ret (or_empty message0)) ;;
           ctype <- (if negb (isSome type0) && negb (hasConventionalPrefix message)
                     then t <- promptCommitType ;; ret (Some t)
                     else ret type0) ;;
           ret (message, ctype)
         else ret (or_empty message0, type0)) ;;
  let (message, ctype) := mt in
  scope <- (if shouldPromptScope && isSome ctype && negb (String.eqb message "")
               && negb (hasConventionalPrefix message)
            then promptCommitScope else ret "") ;;
  emit (EvCommit (finalMessage message ctype scope)).

(* ------------------------------------------------------------------ *)
(** ** Sync-and-push and the merge step *)

(** The text written to stderr when a pull or merge leaves conflicts;
    [what] is ["Pull"] or ["Merge"]. *)
Definition conflict_report (what : string) (conflicted : list string) : string :=
  String "010" "" ++ what ++ " resulted in conflicts:" ++ String "010" ""
  ++ join (String "010" "") (map (fun p => "  " ++ p) conflicted)
  ++ String "010" "".

(** The [catch] block shared by [pullIfPossible] and
    [mergeRemoteBranchIntoCurrent]. *)
Definition on_failure (what : string) (failed : GitError) (rerunCommandName : string)
    : M unit :=
  conflicted <- query EvStatus r_conflicted ;;
  if negb (Nat.eqb (length conflicted) 0) then
    emit (EvStderr (conflict_report what conflicted)) ;;
    throw (EConflict rerunCommandName)
  else throw failed.

Definition git_pull (args : option (string * string)) : M unit :=
  fun g => ([EvPull args], if r_pull_ok g then inr tt else inl (EGitCommand "git pull")).

(** [pullIfPossible]. *)
Definition pullIfPossible (remote branch rerunCommandName : string) : M unit :=
  upstream <- getUpstreamRef ;;
  let hasUpstream := isSome upstream in
  canPull <- (if hasUpstream then ret true else remoteBranchExists remote branch) ;;
  if negb canPull then ret tt else
  catch (if hasUpstream then git_pull None else git_pull (Some (remote, branch)))
        (on_failure "Pull" EPullFailed rerunCommandName).

(** [pushCurrentBranch]. *)
Definition pushCurrentBranch (remote branch : string) : M unit :=
  upstream <- getUpstreamRef ;;
  emit (EvPush remote branch (if isSome upstream then [] else ["-u"])).

Definition git_fetch (remote branch : string) : M unit :=
  fun g => ([EvFetch remote branch],
            if r_fetch_ok g then inr tt else inl (EGitCommand "git fetch")).
Definition git_merge (ref : string) : M unit :=
  fun g => ([EvMerge ref], if r_merge_ok g then inr tt else inl (EGitCommand "git merge")).

(** [mergeRemoteBranchIntoCurrent]. *)
Definition mergeRemoteBranchIntoCurrent (remote sourceBranch rerunCommandName : string)
    : M unit :=
  catch (git_fetch remote sourceBranch ;; git_merge (remote ++ "/" ++ sourceBranch))
        (on_failure "Merge" EMergeFailed rerunCommandName).

(* ------------------------------------------------------------------ *)
(** ** Remote URL parsing (utils/mr.ts) *)

Inductive Provider := github | gitlab | unknown.

Record ParsedRemote := {
  host : string;
  ownerPath : string;
  repo : string;
  provider : Provider
}.

Definition is_line_terminator (c : ascii) : bool :=
  match nat_of_ascii c with 10 | 13 => true | _ => false end.

(** [/^[^@]+@[^:]+:.+/.test(s)]: a non-empty run before the first [@], a
    non-empty run up to the first [:] after it, and one more character
    that is not a line terminator. *)
Definition scp_like (s : string) : bool :=
  match index_of_from "@" s 0 with
  | None | Some 0 => false
  | Some atIndex =>
      match index_of_from ":" s atIndex with
      | None => false
      | Some colonIndex =>
          (S atIndex <? colonIndex)
          && match get (S colonIndex) s with
             | Some c => negb (is_line_terminator c)
             | None => false
             end
      end
  end.

Fixpoint take_while (p : ascii -> bool) (s : string) : string * string :=
  match s with
  | String c r => if p c then let (a, b) := take_while p r in (String c a, b)
                  else ("", s)
  | EmptyString => ("", "")
  end.

Definition last_or_empty (xs : list string) : string := last xs "".

Definition is_digit (c : ascii) : bool :=
  let n := nat_of_ascii c in (48 <=? n) && (n <=? 57).

Fixpoint digits_value (s : string) (acc : nat) : nat :=
  match s with
  | String c r => digits_value r (acc * 10 + (nat_of_ascii c - 48))
  | EmptyString => acc
  end.

Definition lower_ascii (c : ascii) : ascii :=
  let n := nat_of_ascii c in
  if (65 <=? n) && (n <=? 90) then ascii_of_nat (n + 32) else c.

Fixpoint map_string (f : ascii -> ascii) (s : string) : string :=
  match s with
  | String c r => String (f c) (map_string f r)
  | EmptyString => EmptyString
  end.

Fixpoint string_forall (p : ascii -> bool) (s : string) : bool :=
  match s with
  | String c r => p c && string_forall p r
  | EmptyString => true
  end.

Fixpoint decimal_aux (fuel n : nat) (acc : string) : string :=
  match fuel with
  | O => acc
  | S f => let acc' := String (ascii_of_nat (48 + n mod 10)) acc in
           if n <? 10 then acc' else decimal_aux f (n / 10) acc'
  end.
Definition decimal (n : nat) : string := decimal_aux 6 n "".

(** A forbidden host code point of the URL standard (ASCII part). *)
Definition forbidden_host_char (special : bool) (c : ascii) : bool :=
  let n := nat_of_ascii c in
  (n <? 33) || (n =? 127)
  || existsb (Ascii.eqb c) ["#"; "/"; ":"; "<"; ">"; "?"; "@"; "["; "\"; "]"; "^"; "|"]%char
  || (special && Ascii.eqb c "%").

(** [new URL(s)] followed by [url.host] and [url.pathname], for strings
    that start with [ssh://], [http://] or [https://].  The model follows
    the URL standard's authority parsing: userinfo up to the last [@] is
    dropped, the port must be decimal and at most 65535 and is dropped when
    it is the scheme's default, the host of the special schemes [http] and
    [https] is lower-cased and must be non-empty, forbidden host code
    points make the constructor throw, the path stops at [?] or [#], and a
    special URL's empty path is [/].  Not modelled: IPv4/IPv6 host
    canonicalisation, IDNA, percent-encoding of the path, removal of [.]
    and [..] segments and of inner tabs and newlines.  [None] is a thrown
    [TypeError]. *)
Definition url_host_pathname (s : string) : option (string * string) :=
  let '(scheme, rest) :=
    if starts_with "https://" s then ("https", slice_from s 8)
    else if starts_with "http://" s then ("http", slice_from s 7)
    else ("ssh", slice_from s 6) in
  let special := negb (String.eqb scheme "ssh") in
  let '(authority, after) :=
    take_while (fun c => negb (Ascii.eqb c "/" || Ascii.eqb c "?" || Ascii.eqb c "#"
                               || (special && Ascii.eqb c "\"))) rest in
  let hostport := last_or_empty (split "@" authority) in
  let '(hostname, portpart) := take_while (fun c => negb (Ascii.eqb c ":")) hostport in
  let port := match portpart with String _ p => p | EmptyString => "" end in
  let hostname := if special then map_string lower_ascii hostname else hostname in
  let pathname0 := fst (take_while (fun c => negb (Ascii.eqb c "?" || Ascii.eqb c "#")) after) in
  let pathname1 := if special then map_string (fun c => if Ascii.eqb c "\" then "/"%char else c) pathname0
                   else pathname0 in
  let pathname := if special && String.eqb pathname1 "" then "/" else pathname1 in
  if special && String.eqb hostname "" then None
  else if negb (string_forall (fun c => negb (forbidden_host_char special c)) hostname) then None
  else if negb (string_forall is_digit port) then None
  else if String.eqb port "" then Some (hostname, pathname)
  else
    let value := digits_value port 0 in
    if 65535 <? value then None
    else if (String.eqb scheme "http" && (value =? 80))
            || (String.eqb scheme "https" && (value =? 443))
    then Some (hostname, pathname)
    else Some (hostname ++ ":" ++ decimal value, pathname).

Fixpoint strip_start (c : ascii) (s : string) : string :=
  match s with
  | String d r => if Ascii.eqb c d then strip_start c r else s
  | EmptyString => EmptyString
  end.

Fixpoint strip_end (c : ascii) (s : string) : string :=
  match s with
  | String d r => let r' := strip_end c r in
                  if Ascii.eqb c d && String.eqb r' "" then "" else String d r'
  | EmptyString => EmptyString
  end.

(** [path.replace(/\.git$/, "")]. *)
Definition strip_git_suffix (path : string) : string :=
  let n := String.length path in
  if (4 <=? n) && String.eqb (substring (n - 4) 4 path) ".git"
  then substring 0 (n - 4) path else path.

(** The [host] and [path] computed by the first half of [parseRemoteUrl],
    or [None] where it returns [null]. *)
Definition host_and_path (trimmed : string) : option (string * string) :=
  if scp_like trimmed then
    match index_of_from "@" trimmed 0 with
    | Some atIndex =>
        match index_of_from ":" trimmed atIndex with
        | Some colonIndex =>
            Some (slice trimmed (S atIndex) colonIndex, slice_from trimmed (S colonIndex))
        | None => None
        end
    | None => None
    end
  else if starts_with "ssh://" trimmed || starts_with "http://" trimmed
          || starts_with "https://" trimmed then
    match url_host_pathname trimmed with
    | Some (h, pathname) => Some (h, strip_start "/" pathname)
    | None => None
    end
  else None.

(** [path.replace(/\.git$/, "").replace(/\/+$/, "").split("/").filter(Boolean)]. *)
Definition path_parts (path : string) : list string :=
  filter (fun w => negb (String.eqb w "")) (split "/" (strip_end "/" (strip_git_suffix path))).

(** [parseRemoteUrl]. *)
Definition parseRemoteUrl (remoteUrl : string) : option ParsedRemote :=
  let trimmed := trim remoteUrl in
  if String.eqb trimmed "" then None else
  match host_and_path trimmed with
  | None => None
  | Some (h, path) =>
      if String.eqb h "" || String.eqb path "" then None else
      let parts := path_parts path in
      if length parts <? 2 then None else
      Some {| host := h;
              ownerPath := join "/" (removelast parts);
              repo := last_or_empty parts;
              provider := if includes "github" h then github
                          else if includes "gitlab" h then gitlab else unknown |}
  end.

Example parse_examples :
  parseRemoteUrl "ssh://git@GitHub.com:443/acme/widget.git/"
    = Some {| host := "GitHub.com"; ownerPath := "443/acme"; repo := "widget.git"; provider := unknown |}
  /\ parseRemoteUrl "ssh://git@github.com/acme/widget.git"
    = Some {| host := "github.com"; ownerPath := "acme"; repo := "widget"; provider := github |}
  /\ parseRemoteUrl "https://Host.Example:443/a/b/c?x#y"
    = Some {| host := "host.example"; ownerPath := "a/b"; repo := "c"; provider := unknown |}
  /\ parseRemoteUrl "git@gitlab.com:solo.git" = None
  /\ parseRemoteUrl "/srv/git/a/b.git" = None.
Proof. vm_compute. repeat split; reflexivity. Qed.

(* ------------------------------------------------------------------ *)
(** ** Merge/PR request builder (utils/mr.ts) *)

Definition hex_digit (n : nat) : ascii :=
  if n <? 10 then ascii_of_nat (48 + n) else ascii_of_nat (55 + n).

(** [encodeURIComponent] on ASCII strings: everything but
    [A-Z a-z 0-9 - _ . ! ~ * ' ( )] becomes [%XX]. *)
Definition uri_unreserved (c : ascii) : bool :=
  let n := nat_of_ascii c in
  ((65 <=? n) && (n <=? 90)) || ((97 <=? n) && (n <=? 122)) || is_digit c
  || existsb (Ascii.eqb c) ["-"; "_"; "."; "!"; "~"; "*"; "'"; "("; ")"]%char.

Fixpoint encodeURIComponent (s : string) : string :=
  match s with
  | String c r =>
      if uri_unreserved c then String c (encodeURIComponent r)
      else let n := nat_of_ascii c in
           String "%" (String (hex_digit (n / 16)) (String (hex_digit (n mod 16))
             (encodeURIComponent r)))
  | EmptyString => EmptyString
  end.

(** [buildCreateMrUrl]. *)
Definition buildCreateMrUrl (parsed : ParsedRemote) (sourceBranch targetBranch : string)
    : option string :=
  let base := "https://" ++ host parsed ++ "/" ++ ownerPath parsed ++ "/" ++ repo parsed in
  let source := encodeURIComponent sourceBranch in
  let target := encodeURIComponent targetBranch in
  match provider parsed with
  | github => Some (base ++ "/compare/" ++ target ++ "..." ++ source ++ "?expand=1")
  | gitlab => Some (base ++ "/-/merge_requests/new?merge_request[source_branch]=" ++ source
                    ++ "&merge_request[target_branch]=" ++ target)
  | unknown => None
  end.

(** [stdout.match(/https?:\/\/\S+/)?.[0]]: the leftmost match. *)
Definition url_at (s : string) : option string :=
  let from k := let (u, _) := take_while (fun c => negb (is_space c)) (slice_from s k) in
                if String.eqb u "" then None else Some (substring 0 k s ++ u) in
  if starts_with "https://" s then from 8
  else if starts_with "http://" s then from 7
  else None.

Fixpoint find_url (s : string) : option string :=
  match url_at s with
  | Some u => Some u
  | None => match s with
            | String _ r => find_url r
            | EmptyString => None
            end
  end.

(** [commandExists(tool)]: [which tool] exits with 0. *)
Definition commandExists (tool : string) : M bool := query (EvWhich tool) (fun g => r_on_path g tool).

Definition runCommandCapture (tool : string) (args : list string)
    : M (nat * string * string) :=
  query (EvRun tool args) (fun g => r_run g tool args).

Definition first_non_empty (a b : string) : string := if String.eqb a "" then b else a.

(** The message thrown when a provider CLI exits non-zero:
    [`failed to create ... via tool.\n${stderr || stdout || ""}`.trim()]. *)
Definition tool_failure (what tool : string) (stdout stderr : string) : string :=
  trim ("failed to create " ++ what ++ " via " ++ tool ++ "." ++ String "010" ""
        ++ first_non_empty stderr stdout).

Definition glab_args (sourceBranch targetBranch : string) : list string :=
  ["mr"; "create"; "--source-branch"; sourceBranch; "--target-branch"; targetBranch;
   "--fill"; "--yes"].
Definition gh_args (sourceBranch targetBranch : string) : list string :=
  ["pr"; "create"; "--base"; targetBranch; "--head"; sourceBranch; "--fill";
   "--json"; "url"; "-q"; ".url"].

(** The error text when no tool could be used. *)
Definition no_tool_hint (mrUrl : option string) : string :=
  join (String "010" "")
    (app ["no supported MR/PR tool found (install one):";
          "- GitLab: glab (https://github.com/profclems/glab)";
          "- GitHub: gh (https://github.com/cli/cli)"]
         match mrUrl with Some u => ["manual link: " ++ u] | None => [] end).

Definition mr_candidates (parsedRemote : option ParsedRemote) : list string :=
  match option_map provider parsedRemote with
  | Some gitlab => ["glab"; "gh"]
  | Some github => ["gh"; "glab"]
  | _ => ["glab"; "gh"]
  end.

Definition mr_url (parsedRemote : option ParsedRemote) (sourceBranch targetBranch : string)
    : option string :=
  match parsedRemote with
  | Some p => buildCreateMrUrl p sourceBranch targetBranch
  | None => None
  end.

(** The [for (const tool of candidates)] loop of [createMergeRequest]. *)
Fixpoint try_tools (mrUrl : option string) (sourceBranch targetBranch : string)
    (candidates : list string) : M unit :=
  match candidates with
  | [] => throw (ENoTool (no_tool_hint mrUrl))
  | tool :: rest =>
      exists_ <- commandExists tool ;;
      if negb exists_ then try_tools mrUrl sourceBranch targetBranch rest else
      if String.eqb tool "glab" then
        r <- runCommandCapture "glab" (glab_args sourceBranch targetBranch) ;;
        let '(code, stdout, stderr) := r in
        if Nat.eqb code 0 then
          match (match find_url stdout with Some u => Some u | None => mrUrl end) with
          | Some u => emit (EvSuccess ("Merge request created: " ++ u))
          | None => ret tt
          end
        else throw (EToolFailed (tool_failure "merge request" "glab" stdout stderr))
      else if String.eqb tool "gh" then
        r <- runCommandCapture "gh" (gh_args sourceBranch targetBranch) ;;
        let '(code, stdout, stderr) := r in
        if Nat.eqb code 0 then
          match (if String.eqb (trim stdout) "" then mrUrl else Some (trim stdout)) with
          | Some u => emit (EvSuccess ("Pull request created: " ++ u))
          | None => ret tt
          end
        else throw (EToolFailed (tool_failure "pull request" "gh" stdout stderr))
      else try_tools mrUrl sourceBranch targetBranch rest
  end.

(** [createMergeRequest]. *)
Definition createMergeRequest (parsedRemote : option ParsedRemote)
    (sourceBranch targetBranch : string) : M unit :=
  try_tools (mr_url parsedRemote sourceBranch targetBranch) sourceBranch targetBranch
    (mr_candidates parsedRemote).

(* ------------------------------------------------------------------ *)
(** ** The promote-to-main flow (core/toMain.ts) *)

Record ToMainOptions := {
  branch : option string;
  mainCommitMessage : option string;
  mainCommitType : option string
}.

Definition target_branch (options : ToMainOptions) : string :=
  if truthy (option_map trim (branch options)) then trim (or_empty (branch options))
  else "main".

(** [toMain]. *)
Definition toMain (options : ToMainOptions) : M unit :=
  let targetBranch := target_branch options in
  isRepo <- query EvCheckIsRepo r_is_repo ;;
  if negb isRepo then throw ENotRepo else
  currentBranch <- query EvBranch r_current ;;
  if String.eqb currentBranch "" || String.eqb currentBranch "HEAD" then throw EDetachedHead else
  if String.eqb currentBranch targetBranch then throw (EInvalidSourceBranch targetBranch) else
  commitIfDirty {| commitMessage := mainCommitMessage options;
                   commitType := mainCommitType options |} ;;
  remote <- getPreferredRemote ;;
  pullIfPossible remote currentBranch "to-main" ;;
  pushCurrentBranch remote currentBranch ;;
  emit (EvSuccess ("Pushed " ++ currentBranch ++ " -> " ++ remote ++ "/" ++ currentBranch)) ;;
  remoteUrl <- query (EvRemoteGetUrl remote) (fun g => trim (r_remote_url g remote)) ;;
  createMergeRequest (parseRemoteUrl remoteUrl) currentBranch targetBranch.

(* ------------------------------------------------------------------ *)
(** ** The push-current-branch flow (core/toSelf.ts) *)

Record ToSelfOptions := {
  selfCommitMessage : option string;
  selfCommitType : option string
}.

(** [toSelf]. *)
Definition toSelf (options : ToSelfOptions) : M unit :=
  isRepo <- query EvCheckIsRepo r_is_repo ;;
  if negb isRepo then throw ENotRepo else
  branch <- query EvBranch r_current ;;
  if String.eqb branch "" || String.eqb branch "HEAD" then throw EDetachedHead else
  commitIfDirty {| commitMessage := selfCommitMessage options;
                   commitType := selfCommitType options |} ;;
  remote <- getPreferredRemote ;;
  pullIfPossible remote branch "to-self" ;;
  pushCurrentBranch remote branch ;;
  emit (EvSuccess ("Pushed " ++ branch ++ " -> " ++ remote ++ "/" ++ branch)).

(* ------------------------------------------------------------------ *)
(** ** The commit-type list and commit scopes
       ([allowedCommitTypesText], utils/config.ts, [promptCommitScope]) *)

(** [allowedCommitTypesText]. *)
Definition allowedCommitTypesText : string := join ", " COMMIT_TYPES.

Fixpoint string_exists (p : ascii -> bool) (s : string) : bool :=
  match s with
  | String c r => p c || string_exists p r
  | EmptyString => false
  end.

(** The class [[()]]. *)
Definition is_paren (c : ascii) : bool := Ascii.eqb c "(" || Ascii.eqb c ")".

(** A value built by [JSON.parse] (the value of a number plays no role
    here). *)
Inductive JValue :=
| JNull
| JBool (b : bool)
| JNumber (n : nat)
| JString (s : string)
| JArray (xs : list JValue)
| JObject (fields : list (string * JValue)).

(** [normalizeScope]. *)
Definition normalizeScope (value : JValue) : option string :=
  match value with
  | JString v =>
      let trimmed := trim v in
      if String.eqb trimmed "" then None
      else if string_exists is_space trimmed then None
      else if string_exists is_paren trimmed then None
      else Some trimmed
  | _ => None
  end.

(** [obj.key] on an object built by [JSON.parse], where the last of
    duplicate keys wins; [None] is [undefined]. *)
Definition json_get (key : string) (fields : list (string * JValue)) : option JValue :=
  fold_left (fun acc kv => if String.eqb (fst kv) key then Some (snd kv) else acc) fields None.

(** [.filter((s): s is string => Boolean(s))] on [(string | null)[]]. *)
Fixpoint filter_truthy (xs : list (option string)) : list string :=
  match xs with
  | [] => []
  | o :: rest => if truthy o then or_empty o :: filter_truthy rest else filter_truthy rest
  end.

(** [Array.from(new Set(xs))]: the values in insertion order, each once. *)
Definition array_from_set (xs : list string) : list string :=
  fold_left (fun acc x => if existsb (String.eqb x) acc then acc else (acc ++ [x])%list) xs [].

(** [loadCicdConfigScopes(cwd)], given what reading and parsing the file
    [<cwd>/<basename(cwd)>.cicd.config] produced: [None] when [readFile]
    or [JSON.parse] threw, [Some v] for the parsed value.  Every exception
    of the [try] block is caught and answered with [null] (the warning it
    may log is not recorded). *)
Definition loadCicdConfigScopes (config : option JValue) : option (list string) :=
  match config with
  | None => None
  | Some JNull => None (* reading [.scopes] of [null] throws; caught *)
  | Some parsed =>
      let scopes := match parsed with
                    | JObject fields =>
                        match json_get "scopes" fields with
                        | Some (JArray xs) => Some xs
                        | _ => None
                        end
                    | _ => None
                    end in
      match scopes with
      | None => None
      | Some xs =>
          let normalized := filter_truthy (map normalizeScope xs) in
          let unique := array_from_set normalized in
          if 0 <? length unique then Some unique else None
      end
  end.

(** The [validate] function of the scope input prompt of
    [promptCommitScope]; [true] is acceptance (the source returns an error
    text otherwise). *)
Definition validate_scope (value : string) : bool :=
  let trimmed := trim value in
  if String.eqb trimmed "" then true
  else if string_exists is_space trimmed then false
  else if string_exists is_paren trimmed then false
  else true.

(** The values of the choices of the scope list prompt:
    [(none)], the configured scopes and [(custom)]. *)
Definition scope_choices (scopes : list string) : list string :=
  ("" :: scopes ++ ["__custom__"])%list.

(** The value [promptCommitScope] returns, given the loaded scopes, the
    value picked at the list prompt (shown only when scopes were loaded)
    and the text accepted at the input prompt (shown when no scopes were
    loaded, or after [(custom)] was picked). *)
Definition promptCommitScope_value (scopes : option (list string)) (picked entered : string)
    : string :=
  match scopes with
  | Some (_ :: _) => if negb (String.eqb picked "__custom__") then picked else trim entered
  | _ => trim entered
  end.

(* ------------------------------------------------------------------ *)
(** ** Branch switching ([ensureLocalBranchFromRemote], core/toTest.ts) *)

(** The events of [Event], and the commands that switch branches. *)
Inductive Event2 :=
| Ev (e : Event)
| EvBranchLocal
| EvCheckout (branch : string)
| EvCheckoutBranch (branch start : string)
| EvCheckoutLocalBranch (branch : string).

(** A repository whose answers depend on the checked-out branch:
    [r2_view b] answers the queries of [Repo] while [b] is checked out,
    [r2_locals] lists the local branches and [r2_ok] tells which
    branch-switching commands git accepts. *)
Record Repo2 := {
  r2_view : string -> Repo;
  r2_locals : list string;
  r2_ok : Event2 -> bool
}.

(** The monad [M] with the checked-out branch as state. *)
Definition M2 (A : Type) : Type := Repo2 -> string -> list Event2 * (GitError + A) * string.

Definition ret2 {A} (a : A) : M2 A := fun _ cur => ([], inr a, cur).
Definition throw2 {A} (e : GitError) : M2 A := fun _ cur => ([], inl e, cur).
Definition bind2 {A B} (m : M2 A) (f : A -> M2 B) : M2 B :=
  fun g cur =>
    let '(t1, r, cur1) := m g cur in
    match r with
    | inl e => (t1, inl e, cur1)
    | inr a => let '(t2, r2, cur2) := f a g cur1 in ((t1 ++ t2)%list, r2, cur2)
    end.
(** [try { m } catch { h }]. *)
Definition catch2 {A} (m : M2 A) (h : M2 A) : M2 A :=
  fun g cur =>
    let '(t1, r, cur1) := m g cur in
    match r with
    | inl _ => let '(t2, r2, cur2) := h g cur1 in ((t1 ++ t2)%list, r2, cur2)
    | inr a => (t1, inr a, cur1)
    end.
(** [try { m } finally { f }]: the error of [f], if any, replaces the
    completion of [m]. *)
Definition finally2 {A} (m : M2 A) (f : M2 unit) : M2 A :=
  fun g cur =>
    let '(t1, r, cur1) := m g cur in
    let '(t2, r2, cur2) := f g cur1 in
    match r2 with
    | inl e => ((t1 ++ t2)%list, inl e, cur2)
    | inr _ => ((t1 ++ t2)%list, r, cur2)
    end.
(** An action of [M], answered by the view of the checked-out branch. *)
Definition lift {A} (m : M A) : M2 A :=
  fun g cur => let (t, r) := m (r2_view g cur) in (map Ev t, r, cur).
Definition query2 {A} (e : Event2) (f : Repo2 -> A) : M2 A := fun g cur => ([e], inr (f g), cur).
(** [(await git.branch()).current]. *)
Definition current_branch : M2 string := fun _ cur => ([Ev EvBranch], inr cur, cur).
(** A command that checks out [b]; once git accepts it, [b] is checked out. *)
Definition switch_to (e : Event2) (b : string) (command : string) : M2 unit :=
  fun g cur => if r2_ok g e then ([e], inr tt, b) else ([e], inl (EGitCommand command), cur).

Declare Scope m2_scope.
Delimit Scope m2_scope with m2.
Notation "x <- m ;; k" := (bind2 m (fun x => k)) : m2_scope.
Notation "m ;; k" := (bind2 m (fun _ => k)) : m2_scope.

Section BranchSwitching.
Local Open Scope m2_scope.

(** [ensureLocalBranchFromRemote]. *)
Definition ensureLocalBranchFromRemote (remote branch : string) : M2 unit :=
  locals <- query2 EvBranchLocal r2_locals ;;
  if existsb (String.eqb branch) locals then switch_to (EvCheckout branch) branch "git checkout" else
  existsOnRemote <- lift (remoteBranchExists remote branch) ;;
  if existsOnRemote
  then switch_to (EvCheckoutBranch branch (remote ++ "/" ++ branch)) branch "git checkout -b"
  else switch_to (EvCheckoutLocalBranch branch) branch "git checkout -b".

Record ToTestOptions := {
  testBranch : option string;
  testCommitMessage : option string;
  testCommitType : option string
}.

Definition test_target_branch (options : ToTestOptions) : string :=
  if truthy (option_map trim (testBranch options)) then trim (or_empty (testBranch options))
  else "test".

(** The [restoreBranch] closure of [toTest]. *)
Definition restoreBranch (sourceBranch : string) : M2 unit :=
  catch2 (now <- current_branch ;;
          if negb (String.eqb now sourceBranch)
          then switch_to (EvCheckout sourceBranch) sourceBranch "git checkout"
          else ret2 tt)
         (ret2 tt).

(** [toTest]. *)
Definition toTest (options : ToTestOptions) : M2 unit :=
  let targetBranch := test_target_branch options in
  let commitOptions := {| commitMessage := testCommitMessage options;
                          commitType := testCommitType options |} in
  isRepo <- lift (query EvCheckIsRepo r_is_repo) ;;
  if negb isRepo then throw2 ENotRepo else
  currentBranch <- current_branch ;;
  if String.eqb currentBranch "" || String.eqb currentBranch "HEAD"
  then throw2 EDetachedHead else
  remote <- lift getPreferredRemote ;;
  if String.eqb currentBranch targetBranch then
    lift (commitIfDirty commitOptions) ;;
    lift (pullIfPossible remote targetBranch "to-test") ;;
    lift (pushCurrentBranch remote targetBranch) ;;
    lift (emit (EvSuccess ("Pushed " ++ targetBranch ++ " -> " ++ remote ++ "/" ++ targetBranch)))
  else
  let sourceBranch := currentBranch in
  lift (commitIfDirty commitOptions) ;;
  lift (pullIfPossible remote sourceBranch "to-test") ;;
  lift (pushCurrentBranch remote sourceBranch) ;;
  finally2
    (ensureLocalBranchFromRemote remote targetBranch ;;
     lift (pullIfPossible remote targetBranch "to-test") ;;
     lift (mergeRemoteBranchIntoCurrent remote sourceBranch "to-test") ;;
     lift (pushCurrentBranch remote targetBranch) ;;
     lift (emit (EvSuccess ("Pushed " ++ targetBranch ++ " -> " ++ remote ++ "/" ++ targetBranch))))
    (restoreBranch sourceBranch).

End BranchSwitching.

(* ------------------------------------------------------------------ *)
(** ** A concrete repository for the examples *)

(** A dirty repository on branch [feat-x], with upstream [origin/feat-x],
    two remotes, every git command succeeding, no provider CLI installed and
    an interactive terminal answering [add login], [feat] and [auth]. *)
Definition repo0 : Repo := {|
  r_is_repo := true;
  r_current := "feat-x";
  r_status_files := ["src/a.ts"];
  r_staged := "src/a.ts";
  r_tty := true;
  r_subject_answer := " add login ";
  r_type_answer := "feat";
  r_scope_answer := "auth";
  r_upstream := Some "origin/feat-x";
  r_remotes := ["upstream"; "origin"];
  r_ls_remote := fun _ _ => Some "";
  r_pull_ok := true;
  r_fetch_ok := true;
  r_merge_ok := true;
  r_conflicted := [];
  r_remote_url := fun _ => "git@github.com:acme/widget.git";
  r_on_path := fun _ => false;
  r_run := fun _ _ => (0, "", "")
|}.

Definition with_tty (b : bool) (g : Repo) : Repo :=
  {| r_is_repo := r_is_repo g; r_current := r_current g;
     r_status_files := r_status_files g; r_staged := r_staged g; r_tty := b;
     r_subject_answer := r_subject_answer g; r_type_answer := r_type_answer g;
     r_scope_answer := r_scope_answer g; r_upstream := r_upstream g;
     r_remotes := r_remotes g; r_ls_remote := r_ls_remote g;
     r_pull_ok := r_pull_ok g; r_fetch_ok := r_fetch_ok g;
     r_merge_ok := r_merge_ok g; r_conflicted := r_conflicted g;
     r_remote_url := r_remote_url g; r_on_path := r_on_path g; r_run := r_run g |}.

Example commit_interactive_example :
  commitIfDirty {| commitMessage := None; commitType := None |} repo0
  = ([EvStatus; EvAdd ["-A"]; EvDiffCached; EvPromptSubject; EvPromptType;
      EvPromptScope; EvCommit "feat(auth): add login"], inr tt).
Proof. reflexivity. Qed.

(* ------------------------------------------------------------------ *)
(** ** Lemmas on [trim] *)

Lemma trim_end_idem (s : string) : trim_end (trim_end s) = trim_end s.
Proof.
  induction s as [|c r IH]; [reflexivity|].
  cbn [trim_end].
  destruct (is_space c && String.eqb (trim_end r) "") eqn:E; [reflexivity|].
  cbn [trim_end]. rewrite IH, E. reflexivity.
Qed.

Lemma trim_start_shape (s : string) :
  trim_start s = "" \/ exists c r, trim_start s = String c r /\ is_space c = false.
Proof.
  induction s as [|c r IH]; [left; reflexivity|].
  cbn [trim_start]. destruct (is_space c) eqn:E; [exact IH|].
  right. exists c, r. split; [reflexivity|exact E].
Qed.

Lemma trim_idem (s : string) : trim (trim s) = trim s.
Proof.
  unfold trim.
  destruct (trim_start_shape s) as [E|(c & r & E & Hc)]; rewrite E.
  - reflexivity.
  - cbn [trim_end]. rewrite Hc. cbn [andb trim_start]. rewrite Hc.
    change (trim_end (String c (trim_end r)) = String c (trim_end r)).
    cbn [trim_end]. rewrite Hc, trim_end_idem. reflexivity.
Qed.

Lemma hasConventionalPrefix_trim (s : string) :
  hasConventionalPrefix (trim s) = hasConventionalPrefix s.
Proof. unfold hasConventionalPrefix. rewrite trim_idem. reflexivity. Qed.

Lemma hasConventionalPrefix_nonempty (s : string) :
  hasConventionalPrefix s = true -> trim s <> "".
Proof. unfold hasConventionalPrefix. intros H E. rewrite E in H. discriminate. Qed.

Lemma trim_empty : trim "" = "".
Proof. reflexivity. Qed.

Lemma string_eqb_neq (a b : string) : a <> b -> String.eqb a b = false.
Proof. intros H. apply String.eqb_neq. exact H. Qed.

Lemma truthy_some (s : string) : s <> "" -> truthy (Some s) = true.
Proof. intros H. unfold truthy. rewrite string_eqb_neq by exact H. reflexivity. Qed.

(** A supplied commit type is absent, empty, or recognized after trimming. *)
Definition commit_type_ok (ct : option string) : bool :=
  negb (truthy ct) || isRecognizedCommitType (Some (trim (or_empty ct))).

Ltac run_m :=
  cbv [bind ret throw query emit ask catch trace outcome commitIfDirty
       promptCommitSubject promptCommitType promptCommitScope];
  cbn -[isRecognizedCommitType hasConventionalPrefix trim truthy finalMessage].

Lemma truthy_nonempty (m : string) : trim m <> "" -> truthy (Some m) = true.
Proof.
  intros H. apply truthy_some. intros E. subst m. apply H. reflexivity.
Qed.

(** On a dirty tree whose staging produced a diff, a supplied commit type
    that is not recognized after trimming makes [commitIfDirty] fail with
    the unknown-commit-type error right after staging, before any prompt
    or commit, whatever message and terminal. *)
Lemma commitIfDirty_unknown_type (g : Repo) (options : CommitOptions) :
  r_status_files g <> [] -> String.eqb (trim (r_staged g)) "" = false ->
  truthy (commitType options) = true ->
  isRecognizedCommitType (Some (trim (or_empty (commitType options)))) = false ->
  commitIfDirty options g
  = ([EvStatus; EvAdd ["-A"]; EvDiffCached],
     inl (EUnknownCommitType (trim (or_empty (commitType options))))).
Proof.
  intros Hf Hs Ht Hr. run_m.
  destruct (r_status_files g) as [|f fs]; [congruence|].
  cbn -[isRecognizedCommitType hasConventionalPrefix trim truthy finalMessage].
  rewrite Hs, Ht. cbn -[isRecognizedCommitType hasConventionalPrefix trim truthy finalMessage].
  rewrite Hr. reflexivity.
Qed.

(** Claim C1 (amended): on a dirty tree whose staging produced a diff,
    a supplied message [m] whose trimmed form has a conventional prefix is
    the message of the one commit made, as [trim m], with no type or scope
    prepended and no prompt, whether no commit type, an empty one or a
    recognized one was supplied; and a supplied commit type that is not
    recognized (after trimming) fails with the unknown-commit-type error
    before any commit, whatever the message. *)
Theorem commitIfDirty_prefixed_message_kept (g : Repo) (options : CommitOptions) :
  r_status_files g <> [] -> String.eqb (trim (r_staged g)) "" = false ->
  (forall m, commitMessage options = Some m -> hasConventionalPrefix m = true ->
     commit_type_ok (commitType options) = true ->
     trace (commitIfDirty options) g = [EvStatus; EvAdd ["-A"]; EvDiffCached; EvCommit (trim m)])
  /\ (truthy (commitType options) = true ->
      isRecognizedCommitType (Some (trim (or_empty (commitType options)))) = false ->
      commitIfDirty options g
      = ([EvStatus; EvAdd ["-A"]; EvDiffCached],
         inl (EUnknownCommitType (trim (or_empty (commitType options)))))).
Proof.
  intros Hf Hs. split; [|exact (commitIfDirty_unknown_type g options Hf Hs)].
  intros m Hm Hp Ht.
  assert (Hp' : hasConventionalPrefix (trim m) = true)
    by (rewrite hasConventionalPrefix_trim; exact Hp).
  pose proof (hasConventionalPrefix_nonempty _ Hp) as Hne.
  assert (T1 : truthy (Some (trim m)) = true)
    by (apply truthy_some; exact Hne).
  assert (T2 : truthy (Some m) = true) by (apply truthy_nonempty; exact Hne).
  assert (F : finalMessage (trim m) None "" = trim m)
    by (unfold finalMessage; rewrite Hp'; reflexivity).
  run_m.
  destruct (r_status_files g) as [|f fs]; [congruence|]. cbn -[isRecognizedCommitType hasConventionalPrefix trim truthy finalMessage].
  rewrite Hs, Hm. cbn -[isRecognizedCommitType hasConventionalPrefix trim truthy finalMessage].
  rewrite T1, T2.
  unfold commit_type_ok in Ht.
  destruct (truthy (commitType options)) eqn:T; cbn -[isRecognizedCommitType hasConventionalPrefix trim truthy finalMessage] in Ht |- *.
  - rewrite Ht. cbn -[isRecognizedCommitType hasConventionalPrefix trim truthy finalMessage].
    rewrite andb_false_r. cbn -[hasConventionalPrefix trim finalMessage].
    unfold finalMessage. rewrite Hp'. reflexivity.
  - destruct (r_tty g); cbn -[isRecognizedCommitType hasConventionalPrefix trim truthy finalMessage];
      rewrite ?Hp'; cbn -[isRecognizedCommitType hasConventionalPrefix trim truthy finalMessage];
      rewrite ?F; reflexivity.
Qed.

Lemma commitIfDirty_prefixed_message_kept_witness :
  trace (commitIfDirty {| commitMessage := Some "fix(api): handle 404 "; commitType := Some "feat" |})
    (with_tty false repo0)
  = [EvStatus; EvAdd ["-A"]; EvDiffCached; EvCommit "fix(api): handle 404"]
  /\ commitIfDirty {| commitMessage := Some "feat: add login"; commitType := Some " bogus " |} repo0
     = ([EvStatus; EvAdd ["-A"]; EvDiffCached], inl (EUnknownCommitType "bogus")).
Proof.
  split.
  - apply (proj1 (commitIfDirty_prefixed_message_kept (with_tty false repo0)
             {| commitMessage := Some "fix(api): handle 404 "; commitType := Some "feat" |}
             ltac:(discriminate) eq_refl) "fix(api): handle 404 ");
      reflexivity.
  - apply (proj2 (commitIfDirty_prefixed_message_kept repo0
             {| commitMessage := Some "feat: add login"; commitType := Some " bogus " |}
             ltac:(discriminate) eq_refl)); reflexivity.
Defined.

(** Claim C1 fails as stated: the message committed is the trimmed one, so
    a prefixed message with surrounding whitespace is not committed
    verbatim; and a supplied, unrecognized commit type makes the run fail
    before any commit. *)
Lemma commitIfDirty_prefixed_message_not_verbatim :
  commitIfDirty {| commitMessage := Some " feat: add login"; commitType := None |} repo0
  = ([EvStatus; EvAdd ["-A"]; EvDiffCached; EvCommit "feat: add login"], inr tt)
  /\ "feat: add login" <> " feat: add login"
  /\ commitIfDirty {| commitMessage := Some "feat: add login"; commitType := Some "bogus" |} repo0
     = ([EvStatus; EvAdd ["-A"]; EvDiffCached], inl (EUnknownCommitType "bogus")).
Proof. split; [reflexivity|split; [discriminate|reflexivity]]. Qed.

(** Claim C7 (amended): a non-interactive run on a dirty tree whose staging
    produced a diff, with no commit type, an empty one or a recognized one,
    fails with a missing-commit-metadata error when no (non-blank) message
    was supplied, and also when an unprefixed message was supplied without
    a commit type; it stops right after staging, so no commit is made.  A
    supplied commit type that is not recognized (after trimming) fails
    first, with the unknown-commit-type error, whatever the message. *)
Theorem commitIfDirty_noninteractive_missing_metadata (g : Repo) (options : CommitOptions) :
  r_tty g = false -> r_status_files g <> [] ->
  String.eqb (trim (r_staged g)) "" = false ->
  (commit_type_ok (commitType options) = true ->
   truthy (option_map trim (commitMessage options)) = false
   \/ (truthy (commitType options) = false
       /\ hasConventionalPrefix (or_empty (commitMessage options)) = false) ->
   trace (commitIfDirty options) g = [EvStatus; EvAdd ["-A"]; EvDiffCached]
   /\ exists e, outcome (commitIfDirty options) g = inl e /\ kind e = MissingCommitMetadata)
  /\ (truthy (commitType options) = true ->
      isRecognizedCommitType (Some (trim (or_empty (commitType options)))) = false ->
      trace (commitIfDirty options) g = [EvStatus; EvAdd ["-A"]; EvDiffCached]
      /\ outcome (commitIfDirty options) g
         = inl (EUnknownCommitType (trim (or_empty (commitType options))))).
Proof.
  intros Htty Hf Hs. split.
  2:{ intros Ht Hr. unfold trace, outcome.
      rewrite (commitIfDirty_unknown_type g options Hf Hs Ht Hr). split; reflexivity. }
  intros Ht Hcase.
  unfold trace, outcome. run_m.
  destruct (r_status_files g) as [|f fs]; [congruence|].
  cbn -[isRecognizedCommitType hasConventionalPrefix trim truthy finalMessage].
  rewrite Hs, Htty.
  cbn -[isRecognizedCommitType hasConventionalPrefix trim truthy finalMessage].
  unfold commit_type_ok in Ht.
  destruct (truthy (option_map trim (commitMessage options))) eqn:Tm.
  - destruct Hcase as [Hc|[Hc Hp]]; [discriminate|].
    rewrite Hc. cbn -[isRecognizedCommitType hasConventionalPrefix trim truthy finalMessage].
    destruct (commitMessage options) as [m|] eqn:Hm; [|discriminate].
    cbn -[isRecognizedCommitType hasConventionalPrefix trim truthy finalMessage] in Hp |- *.
    rewrite hasConventionalPrefix_trim, Hp.
    split; [reflexivity|]. eexists; split; reflexivity.
  - destruct (truthy (commitType options)) eqn:T;
      cbn -[isRecognizedCommitType hasConventionalPrefix trim truthy finalMessage] in Ht |- *.
    + rewrite Ht. cbn -[isRecognizedCommitType hasConventionalPrefix trim truthy finalMessage].
      split; [reflexivity|]. eexists; split; reflexivity.
    + split; [reflexivity|]. eexists; split; reflexivity.
Qed.

Lemma commitIfDirty_noninteractive_missing_metadata_witness :
  (trace (commitIfDirty {| commitMessage := Some "add login"; commitType := None |})
     (with_tty false repo0) = [EvStatus; EvAdd ["-A"]; EvDiffCached]
   /\ exists e, outcome (commitIfDirty {| commitMessage := Some "add login"; commitType := None |})
                  (with_tty false repo0) = inl e /\ kind e = MissingCommitMetadata)
  /\ outcome (commitIfDirty {| commitMessage := None; commitType := Some "bogus" |})
       (with_tty false repo0) = inl (EUnknownCommitType "bogus").
Proof.
  split.
  - apply (proj1 (commitIfDirty_noninteractive_missing_metadata (with_tty false repo0)
             {| commitMessage := Some "add login"; commitType := None |}
             eq_refl ltac:(discriminate) eq_refl));
      [reflexivity | right; split; reflexivity].
  - apply (proj2 (commitIfDirty_noninteractive_missing_metadata (with_tty false repo0)
             {| commitMessage := None; commitType := Some "bogus" |}
             eq_refl ltac:(discriminate) eq_refl)); reflexivity.
Defined.

(** Claim C7 fails as stated: with no message but an unrecognized commit
    type, the non-interactive run fails with the unknown-commit-type error,
    not with the missing-commit-metadata one. *)
Lemma commitIfDirty_unknown_type_before_missing_message :
  commitIfDirty {| commitMessage := None; commitType := Some "bogus" |} (with_tty false repo0)
  = ([EvStatus; EvAdd ["-A"]; EvDiffCached], inl (EUnknownCommitType "bogus"))
  /\ kind (EUnknownCommitType "bogus") <> MissingCommitMetadata.
Proof. split; [reflexivity|discriminate]. Qed.

Lemma recognized_trim (t : string) :
  isRecognizedCommitType (Some t) = true -> trim t = t.
Proof.
  unfold isRecognizedCommitType. destruct (String.eqb t "") eqn:E; [discriminate|].
  intros H. apply existsb_exists in H as (t' & Hin & Heq).
  apply String.eqb_eq in Heq. subst t'.
  repeat (destruct Hin as [<-|Hin]; [reflexivity|]). destruct Hin.
Qed.

(** Claim C2: on a dirty tree whose staging produced a diff, with a
    recognized commit type [t], the message of the commit is composed from
    [t], the scope and the subject.  In an interactive run with no message
    supplied, where [t] was supplied or chosen at the prompt, the subject
    [s] (the trimmed answer of the subject prompt) carries no conventional
    prefix and the scope prompt answers [scope], the message is exactly
    [t(scope): s] when [scope] is non-empty and exactly [t: s] when it is
    empty.  With a supplied message [m] that is not blank and carries no
    conventional prefix, where [t] was supplied (with or without a
    terminal) or chosen at the type prompt, no scope is asked for and the
    message is exactly [t: trim m]. *)
Theorem commitIfDirty_composes_message (g : Repo) (options : CommitOptions) (t : string) :
  r_status_files g <> [] -> String.eqb (trim (r_staged g)) "" = false ->
  isRecognizedCommitType (Some t) = true ->
  (r_tty g = true -> commitMessage options = None ->
   (commitType options = None /\ r_type_answer g = t) \/ commitType options = Some t ->
   trim (r_subject_answer g) <> "" ->
   hasConventionalPrefix (r_subject_answer g) = false ->
   trace (commitIfDirty options) g
   = ([EvStatus; EvAdd ["-A"]; EvDiffCached; EvPromptSubject]
      ++ (if isSome (commitType options) then [] else [EvPromptType])
      ++ [EvPromptScope;
          EvCommit (if String.eqb (r_scope_answer g) "" then t ++ ": " ++ trim (r_subject_answer g)
                    else t ++ "(" ++ r_scope_answer g ++ "): " ++ trim (r_subject_answer g))])%list)
  /\ (forall m, commitMessage options = Some m -> trim m <> "" ->
      hasConventionalPrefix m = false ->
      (commitType options = None /\ r_tty g = true /\ r_type_answer g = t)
      \/ commitType options = Some t ->
      trace (commitIfDirty options) g
      = ([EvStatus; EvAdd ["-A"]; EvDiffCached]
         ++ (if isSome (commitType options) then [] else [EvPromptType])
         ++ [EvCommit (t ++ ": " ++ trim m)])%list).
Proof.
  intros Hf Hs Hrec.
  assert (Ht : trim t = t) by (apply recognized_trim; exact Hrec).
  assert (Tt : String.eqb t "" = false).
  { apply String.eqb_neq. intros E. subst t. discriminate. }
  split.
  - intros Htty Hm Hty Hne Hp.
    apply String.eqb_neq in Hne.
    assert (Hp' : hasConventionalPrefix (trim (r_subject_answer g)) = false)
      by (rewrite hasConventionalPrefix_trim; exact Hp).
    assert (F : forall sc, finalMessage (trim (r_subject_answer g)) (Some t) sc
                 = if String.eqb sc "" then t ++ ": " ++ trim (r_subject_answer g)
                   else t ++ "(" ++ sc ++ "): " ++ trim (r_subject_answer g)).
    { intros sc. unfold finalMessage. rewrite Hp', trim_idem. cbn.
      destruct (String.eqb sc ""); reflexivity. }
    run_m.
    destruct (r_status_files g) as [|f fs]; [congruence|].
    cbn -[isRecognizedCommitType hasConventionalPrefix trim truthy finalMessage].
    rewrite Hs, Hm, Htty.
    cbn -[isRecognizedCommitType hasConventionalPrefix trim truthy finalMessage].
    destruct Hty as [[Hc Ha]|Hc]; rewrite Hc;
      cbn -[isRecognizedCommitType hasConventionalPrefix trim finalMessage].
    + do 3 (rewrite ?Hp', ?Hne, ?Ha;
              cbn -[isRecognizedCommitType hasConventionalPrefix trim finalMessage]).
      rewrite F. reflexivity.
    + rewrite Tt, Ht, Hrec.
      cbn -[isRecognizedCommitType hasConventionalPrefix trim finalMessage].
      do 3 (rewrite ?Hp', ?Hne;
            cbn -[isRecognizedCommitType hasConventionalPrefix trim finalMessage]).
      rewrite F. reflexivity.
  - intros m Hm Hne Hp Hty.
    assert (Hp' : hasConventionalPrefix (trim m) = false)
      by (rewrite hasConventionalPrefix_trim; exact Hp).
    assert (T1 : String.eqb (trim m) "" = false) by (apply String.eqb_neq; exact Hne).
    assert (T2 : String.eqb m "" = false).
    { apply String.eqb_neq. intros E. subst m. apply Hne. reflexivity. }
    assert (F : finalMessage (trim m) (Some t) "" = t ++ ": " ++ trim m).
    { unfold finalMessage. rewrite Hp', trim_idem. reflexivity. }
    run_m.
    destruct (r_status_files g) as [|f fs]; [congruence|].
    cbn -[isRecognizedCommitType hasConventionalPrefix trim finalMessage].
    rewrite Hs, Hm.
    cbn -[isRecognizedCommitType hasConventionalPrefix trim finalMessage].
    destruct Hty as [(Hc & Htty & Ha)|Hc]; rewrite Hc;
      cbn -[isRecognizedCommitType hasConventionalPrefix trim finalMessage].
    + do 4 (rewrite ?Htty, ?T1, ?T2, ?Hp', ?Ha;
            cbn -[isRecognizedCommitType hasConventionalPrefix trim finalMessage]).
      rewrite F. reflexivity.
    + do 4 (rewrite ?Tt, ?Ht, ?Hrec, ?T1, ?T2, ?andb_false_r;
            cbn -[isRecognizedCommitType hasConventionalPrefix trim finalMessage]).
      rewrite F. reflexivity.
Qed.

Lemma commitIfDirty_composes_message_witness :
  trace (commitIfDirty {| commitMessage := None; commitType := None |}) repo0
  = [EvStatus; EvAdd ["-A"]; EvDiffCached; EvPromptSubject; EvPromptType; EvPromptScope;
     EvCommit "feat(auth): add login"]
  /\ trace (commitIfDirty {| commitMessage := Some " add login "; commitType := Some "feat" |})
        (with_tty false repo0)
     = [EvStatus; EvAdd ["-A"]; EvDiffCached; EvCommit "feat: add login"].
Proof.
  split.
  - apply (proj1 (commitIfDirty_composes_message repo0
             {| commitMessage := None; commitType := None |} "feat"
             ltac:(discriminate) eq_refl eq_refl));
      [reflexivity | reflexivity | left; split; reflexivity | discriminate | reflexivity].
  - apply (proj2 (commitIfDirty_composes_message (with_tty false repo0)
             {| commitMessage := Some " add login "; commitType := Some "feat" |} "feat"
             ltac:(discriminate) eq_refl eq_refl) " add login ");
      [reflexivity | discriminate | reflexivity | right; reflexivity].
Defined.

(* ------------------------------------------------------------------ *)
(** ** Remote resolver and remote-branch probe *)

Definition with_remotes (upstream : option string) (remotes : list string)
    (ls_remote : string -> string -> option string) (g : Repo) : Repo :=
  {| r_is_repo := r_is_repo g; r_current := r_current g;
     r_status_files := r_status_files g; r_staged := r_staged g; r_tty := r_tty g;
     r_subject_answer := r_subject_answer g; r_type_answer := r_type_answer g;
     r_scope_answer := r_scope_answer g; r_upstream := upstream;
     r_remotes := remotes; r_ls_remote := ls_remote;
     r_pull_ok := r_pull_ok g; r_fetch_ok := r_fetch_ok g;
     r_merge_ok := r_merge_ok g; r_conflicted := r_conflicted g;
     r_remote_url := r_remote_url g; r_on_path := r_on_path g; r_run := r_run g |}.

(** The remote name taken from the upstream ref, when there is one and it
    has a non-empty part before its first [/]. *)
Definition upstream_remote (g : Repo) : option string :=
  match normalize_upstream (r_upstream g) with
  | Some u => getRemoteFromUpstream u
  | None => None
  end.

(** Claim C3 (code bug): the preferred remote as [getPreferredRemote]
    computes it: the upstream's remote when one can be taken from the
    upstream ref, else [origin] when it is listed, else the first listed
    remote; with upstream [origin/feat-x] the result is [origin] whatever
    the remotes and their order; and the no-remote error occurs exactly
    when no upstream remote can be taken and no remote is listed, so the
    remote list is never consulted once the upstream yields a name. *)
Theorem getPreferredRemote_priority (g : Repo) :
  outcome getPreferredRemote g
  = match upstream_remote g with
    | Some r => inr r
    | None => if existsb (String.eqb "origin") (r_remotes g) then inr "origin"
              else match r_remotes g with
                   | n :: _ => inr n
                   | [] => inl ENoRemote
                   end
    end
  /\ (r_upstream g = Some "origin/feat-x" -> outcome getPreferredRemote g = inr "origin")
  /\ (forall e, outcome getPreferredRemote g = inl e
                <-> e = ENoRemote /\ upstream_remote g = None /\ r_remotes g = []).
Proof.
  assert (H : outcome getPreferredRemote g
    = match upstream_remote g with
      | Some r => inr r
      | None => if existsb (String.eqb "origin") (r_remotes g) then inr "origin"
                else match r_remotes g with
                     | n :: _ => inr n
                     | [] => inl ENoRemote
                     end
      end).
  { unfold outcome, getPreferredRemote, getUpstreamRef, upstream_remote.
    cbv [bind ret throw query]. cbn -[normalize_upstream getRemoteFromUpstream String.eqb existsb].
    destruct (normalize_upstream (r_upstream g)) as [u|];
      [destruct (getRemoteFromUpstream u)|]; cbn -[String.eqb existsb]; try reflexivity;
      (destruct (existsb (String.eqb "origin") (r_remotes g)); [reflexivity|]);
      destruct (r_remotes g); reflexivity. }
  split; [exact H|]. split.
  - intros Hu. rewrite H. unfold upstream_remote. rewrite Hu. reflexivity.
  - intros e. rewrite H. split.
    + destruct (upstream_remote g); [discriminate|].
      destruct (existsb (String.eqb "origin") (r_remotes g)); [discriminate|].
      destruct (r_remotes g); [|discriminate]. intros E. injection E as <-. auto.
    + intros (-> & -> & ->). reflexivity.
Qed.

Lemma getPreferredRemote_priority_witness :
  outcome getPreferredRemote
    (with_remotes (Some "origin/feat-x") ["upstream"; "origin"] (fun _ _ => None) repo0)
  = inr "origin".
Proof.
  destruct (getPreferredRemote_priority
              (with_remotes (Some "origin/feat-x") ["upstream"; "origin"] (fun _ _ => None) repo0))
    as (_ & H & _).
  apply H. reflexivity.
Defined.

(** Claim C3: [getPreferredRemote] departs from its documented contract
    (it throws when the repository has no remote): with an upstream ref
    [feature/base] (a local branch with a [/] in its name) and no remote at
    all, it returns [feature], a remote that does not exist, instead of
    the no-remote error. *)
Lemma getPreferredRemote_no_remotes_but_upstream :
  getPreferredRemote (with_remotes (Some "feature/base") [] (fun _ _ => None) repo0)
  = ([EvRevParseUpstream], inr "feature").
Proof. reflexivity. Qed.

Lemma target_branch_nonempty (options : ToMainOptions) : target_branch options <> "".
Proof.
  unfold target_branch.
  destruct (truthy (option_map trim (branch options))) eqn:E; [|discriminate].
  destruct (branch options) as [b|]; [|discriminate].
  cbn in E |- *. apply negb_true_iff, String.eqb_neq in E. exact E.
Qed.

(** Claim C4: in a git repository whose current branch is the configured
    target branch, [toMain] fails with the invalid-source-branch error
    after only the two read-only queries (is-repository, current branch):
    no staging, commit, pull, push or request creation happens. *)
Theorem toMain_on_target_branch (options : ToMainOptions) (g : Repo) :
  r_is_repo g = true -> r_current g = target_branch options -> r_current g <> "HEAD" ->
  toMain options g
  = ([EvCheckIsRepo; EvBranch], inl (EInvalidSourceBranch (target_branch options)))
  /\ forallb (fun e => negb (mutates e)) (trace (toMain options) g) = true.
Proof.
  intros Hrepo Hcur Hhead.
  assert (E : toMain options g
    = ([EvCheckIsRepo; EvBranch], inl (EInvalidSourceBranch (target_branch options)))).
  { unfold toMain. cbv [bind ret throw query]. cbn -[target_branch commitIfDirty].
    rewrite Hrepo. cbn -[target_branch commitIfDirty].
    rewrite Hcur, String.eqb_refl.
    rewrite (string_eqb_neq _ _ (target_branch_nonempty options)).
    rewrite <- Hcur, (string_eqb_neq _ _ Hhead). reflexivity. }
  split; [exact E|]. unfold trace. rewrite E. reflexivity.
Qed.

Definition toMain_options0 : ToMainOptions :=
  {| branch := Some " feat-x "; mainCommitMessage := None; mainCommitType := None |}.

Lemma toMain_on_target_branch_witness :
  toMain toMain_options0 repo0
  = ([EvCheckIsRepo; EvBranch], inl (EInvalidSourceBranch "feat-x"))
  /\ forallb (fun e => negb (mutates e)) (trace (toMain toMain_options0) repo0) = true.
Proof.
  apply (toMain_on_target_branch toMain_options0 repo0);
    [reflexivity | reflexivity | discriminate].
Defined.

(** Claim C9: the remote-branch probe runs [ls-remote] once and never
    fails.  For the listings [git ls-remote --heads] produces (empty when
    no head matches, and otherwise one line [<sha>TAB<ref>] per matching
    head, so never blank without being empty), it answers [false] when the
    listing fails and [true] exactly when the listing succeeds with a
    non-empty output. *)
Theorem remoteBranchExists_total (g : Repo) (remote branch : string) :
  (forall o, r_ls_remote g remote branch = Some o -> o = "" \/ trim o <> "") ->
  remoteBranchExists remote branch g
  = ([EvLsRemote remote branch],
     inr (match r_ls_remote g remote branch with
          | Some o => negb (String.eqb o "")
          | None => false
          end))
  /\ (outcome (remoteBranchExists remote branch) g = inr true
      <-> exists o, r_ls_remote g remote branch = Some o /\ o <> "").
Proof.
  intros Hout.
  assert (E : remoteBranchExists remote branch g
    = ([EvLsRemote remote branch],
       inr (match r_ls_remote g remote branch with
            | Some o => negb (String.eqb o "")
            | None => false
            end))).
  { cbv [remoteBranchExists bind ret query]. cbn -[trim].
    destruct (r_ls_remote g remote branch) as [o|] eqn:Eo; [|reflexivity].
    destruct (Hout o eq_refl) as [->|Hne]; [reflexivity|].
    rewrite (string_eqb_neq _ _ Hne).
    assert (Ho : o <> "") by (intros ->; apply Hne; reflexivity).
    rewrite (string_eqb_neq _ _ Ho). reflexivity. }
  split; [exact E|]. unfold outcome. rewrite E. cbn.
  destruct (r_ls_remote g remote branch) as [o|]; split.
  - intros H. injection H as H. exists o. split; [reflexivity|].
    apply negb_true_iff, String.eqb_neq in H. exact H.
  - intros (o' & Ho & Hne). injection Ho as <-.
    rewrite (string_eqb_neq _ _ Hne). reflexivity.
  - discriminate.
  - intros (o' & Ho & _). discriminate.
Qed.

Lemma remoteBranchExists_total_witness :
  outcome (remoteBranchExists "origin" "test")
    (with_remotes None ["origin"] (fun _ _ => Some "abc123	refs/heads/test") repo0) = inr true.
Proof.
  destruct (remoteBranchExists_total
              (with_remotes None ["origin"] (fun _ _ => Some "abc123	refs/heads/test") repo0)
              "origin" "test") as (_ & H).
  - intros o Ho. injection Ho as <-. right. discriminate.
  - apply H. exists "abc123	refs/heads/test". split; [reflexivity|discriminate].
Defined.

(* ------------------------------------------------------------------ *)
(** ** Remote URL parsing and the merge/PR request builder *)

(** Claim C5: the two documented parses, and [null] for every input that
    (after trimming) is neither scp-like (matches [/^[^@]+@[^:]+:.+/]) nor
    starts with [ssh://], [http://] or [https://], and for every input
    whose extracted path has fewer than two segments. *)
Theorem parseRemoteUrl_spec :
  parseRemoteUrl "git@github.com:acme/widget.git"
    = Some {| host := "github.com"; ownerPath := "acme"; repo := "widget"; provider := github |}
  /\ parseRemoteUrl "https://gitlab.example.com/group/sub/project.git"
    = Some {| host := "gitlab.example.com"; ownerPath := "group/sub"; repo := "project";
              provider := gitlab |}
  /\ (forall u, scp_like (trim u) = false -> starts_with "ssh://" (trim u) = false ->
        starts_with "http://" (trim u) = false -> starts_with "https://" (trim u) = false ->
        parseRemoteUrl u = None)
  /\ (forall u h path, host_and_path (trim u) = Some (h, path) ->
        length (path_parts path) < 2 -> parseRemoteUrl u = None).
Proof.
  split; [vm_compute; reflexivity|]. split; [vm_compute; reflexivity|]. split.
  - intros u H1 H2 H3 H4. unfold parseRemoteUrl, host_and_path.
    rewrite H1, H2, H3, H4. cbn. destruct (String.eqb (trim u) ""); reflexivity.
  - intros u h path Hhp Hlen. unfold parseRemoteUrl. rewrite Hhp.
    destruct (String.eqb (trim u) ""); [reflexivity|].
    destruct (String.eqb h "" || String.eqb path ""); [reflexivity|].
    apply Nat.ltb_lt in Hlen. rewrite Hlen. reflexivity.
Qed.

Lemma parseRemoteUrl_spec_witness :
  parseRemoteUrl " /srv/git/widget.git " = None
  /\ parseRemoteUrl "git@github.com:widget.git" = None.
Proof.
  destruct parseRemoteUrl_spec as (_ & _ & Hform & Hseg). split.
  - apply Hform; reflexivity.
  - apply (Hseg "git@github.com:widget.git" "github.com" "widget.git");
      [reflexivity | cbn; lia].
Defined.

Lemma starts_with_self (p b : string) : starts_with p (p ++ b) = true.
Proof.
  induction p as [|c p IH]; [destruct b; reflexivity|].
  cbn. rewrite Ascii.eqb_refl, IH. reflexivity.
Qed.

Lemma includes_of_starts_with (p s : string) : starts_with p s = true -> includes p s = true.
Proof. intros H. destruct s; cbn; rewrite H; reflexivity. Qed.

Lemma includes_app_l (p a s : string) : includes p s = true -> includes p (a ++ s) = true.
Proof.
  intros H. induction a as [|c a IH]; [exact H|].
  cbn [append includes]. rewrite IH, orb_true_r. reflexivity.
Qed.

Lemma sappend_nil_r (s : string) : s ++ "" = s.
Proof. induction s as [|c s IH]; [reflexivity|]. cbn. rewrite IH. reflexivity. Qed.

Lemma sappend_assoc (a b c : string) : (a ++ b) ++ c = a ++ b ++ c.
Proof. induction a as [|x a IH]; [reflexivity|]. cbn. rewrite IH. reflexivity. Qed.

Lemma try_tools_none_on_path (g : Repo) (mrUrl : option string) (s t : string)
    (candidates : list string) :
  (forall tool, r_on_path g tool = false) ->
  try_tools mrUrl s t candidates g
  = (map EvWhich candidates, inl (ENoTool (no_tool_hint mrUrl))).
Proof.
  intros Hnone. induction candidates as [|c rest IH]; [reflexivity|].
  cbn [try_tools]. unfold commandExists. cbv [bind query]. rewrite Hnone. cbn [negb].
  rewrite IH. reflexivity.
Qed.

Lemma mr_url_some (parsed : option ParsedRemote) (s t : string) :
  isSome (mr_url parsed s t) = true <-> exists p, parsed = Some p /\ provider p <> unknown.
Proof.
  unfold mr_url. destruct parsed as [p|]; cbn.
  - unfold buildCreateMrUrl. destruct (provider p) eqn:E; cbn; split; try reflexivity.
    + intros _. exists p. rewrite E. split; [reflexivity|discriminate].
    + intros _. exists p. rewrite E. split; [reflexivity|discriminate].
    + discriminate.
    + intros (p' & Hp & Hne). injection Hp as <-. contradiction.
  - split; [discriminate|]. intros (p' & Hp & _). discriminate.
Qed.

(** Claim C6 (amended): when no provider CLI is on the path, request
    creation only probes the candidate tools and fails with the no-tool
    error; its message carries the line [manual link: <url>] with the
    manually built URL exactly when the remote was parsed and its provider
    is [github] or [gitlab], and has no manual link otherwise (remote not
    parsed, or parsed with an unknown provider). *)
Theorem createMergeRequest_manual_link (g : Repo) (parsed : option ParsedRemote)
    (sourceBranch targetBranch : string) :
  (forall tool, r_on_path g tool = false) ->
  createMergeRequest parsed sourceBranch targetBranch g
  = (map EvWhich (mr_candidates parsed),
     inl (ENoTool (no_tool_hint (mr_url parsed sourceBranch targetBranch))))
  /\ (isSome (mr_url parsed sourceBranch targetBranch) = true
      <-> exists p, parsed = Some p /\ provider p <> unknown)
  /\ match mr_url parsed sourceBranch targetBranch with
     | Some u => includes ("manual link: " ++ u) (no_tool_hint (Some u)) = true
     | None => includes "manual link" (no_tool_hint None) = false
     end.
Proof.
  intros Hnone. split; [apply try_tools_none_on_path; exact Hnone|].
  split; [apply mr_url_some|].
  destruct (mr_url parsed sourceBranch targetBranch) as [u|]; [|vm_compute; reflexivity].
  assert (E : no_tool_hint (Some u)
    = "no supported MR/PR tool found (install one):" ++ String "010" ""
      ++ "- GitLab: glab (https://github.com/profclems/glab)" ++ String "010" ""
      ++ "- GitHub: gh (https://github.com/cli/cli)" ++ String "010" ""
      ++ ("manual link: " ++ u) ++ "") by (rewrite sappend_nil_r; reflexivity).
  rewrite E. do 6 apply includes_app_l. apply includes_of_starts_with, starts_with_self.
Qed.

Lemma createMergeRequest_manual_link_witness :
  createMergeRequest (parseRemoteUrl "git@github.com:acme/widget.git") "feat-x" "main" repo0
  = ([EvWhich "gh"; EvWhich "glab"],
     inl (ENoTool (no_tool_hint (Some "https://github.com/acme/widget/compare/main...feat-x?expand=1")))).
Proof.
  destruct (createMergeRequest_manual_link repo0 (parseRemoteUrl "git@github.com:acme/widget.git")
              "feat-x" "main") as [H _]; [intros; reflexivity|].
  exact H.
Defined.

(** Claim C6 fails as stated: [git@bitbucket.org:acme/widget.git] is
    parsed (provider [unknown]), yet with no CLI on the path the failure
    message has no manual link. *)
Lemma createMergeRequest_parsed_without_link :
  parseRemoteUrl "git@bitbucket.org:acme/widget.git"
    = Some {| host := "bitbucket.org"; ownerPath := "acme"; repo := "widget"; provider := unknown |}
  /\ createMergeRequest (parseRemoteUrl "git@bitbucket.org:acme/widget.git") "feat-x" "main" repo0
     = ([EvWhich "glab"; EvWhich "gh"], inl (ENoTool (no_tool_hint None)))
  /\ includes "manual link" (no_tool_hint None) = false.
Proof. split; [|split]; vm_compute; reflexivity. Qed.

(* ------------------------------------------------------------------ *)
(** ** Conflict handling of pull and merge *)

Lemma join_map_in {A} (f : A -> string) (sep : string) (xs : list A) (x : A) :
  In x xs -> exists a b, join sep (map f xs) = a ++ f x ++ b.
Proof.
  induction xs as [|y ys IH]; [intros []|].
  intros [<-|Hin].
  - destruct ys as [|z zs].
    + exists "", "". cbn. rewrite sappend_nil_r. reflexivity.
    + exists "", (sep ++ join sep (map f (z :: zs))). reflexivity.
  - destruct (IH Hin) as (a & b & E).
    destruct ys as [|z zs]; [destruct Hin|].
    exists (f y ++ sep ++ a), b.
    change (join sep (map f (y :: z :: zs)))
      with (f y ++ sep ++ join sep (map f (z :: zs))).
    rewrite E, !sappend_assoc. reflexivity.
Qed.

(** Every conflicted path has its own line in the conflict report. *)
Lemma conflict_report_lists (what : string) (cs : list string) (p : string) :
  In p cs -> includes ("  " ++ p) (conflict_report what cs) = true.
Proof.
  intros Hin. destruct (join_map_in (fun q => "  " ++ q) (String "010" "") cs p Hin)
    as (a & b & E).
  unfold conflict_report. rewrite E.
  do 4 apply includes_app_l. rewrite sappend_assoc. apply includes_app_l.
  rewrite sappend_assoc. apply includes_of_starts_with, starts_with_self.
Qed.

(** The events after a failed pull or merge, and the error it ends with. *)
Definition report_events (what : string) (cs : list string) : list Event :=
  if Nat.eqb (length cs) 0 then [] else [EvStderr (conflict_report what cs)].
Definition failure_error (failed : GitError) (rerun : string) (cs : list string) : GitError :=
  if Nat.eqb (length cs) 0 then failed else EConflict rerun.

(** Whether [pullIfPossible] runs [git pull]. *)
Definition pull_attempted (g : Repo) (remote branch : string) : bool :=
  isSome (normalize_upstream (r_upstream g))
  || match r_ls_remote g remote branch with
     | Some o => negb (String.eqb (trim o) "")
     | None => false
     end.

(** Claim C8: when the pull of [pullIfPossible] or the fetch/merge of
    [mergeRemoteBranchIntoCurrent] fails, the code queries the status
    once, writes the conflict report (which lists every conflicted path)
    when there are conflicted paths and fails with the conflict error
    naming the command to rerun, and otherwise fails with the generic
    pull- or merge-failed error; nothing else is run after the failure (no
    resolution, no commit). *)
Theorem pull_merge_failure_handling :
  (forall g remote branch rerun,
     r_pull_ok g = false -> pull_attempted g remote branch = true ->
     pullIfPossible remote branch rerun g
     = (EvRevParseUpstream
          :: (if isSome (normalize_upstream (r_upstream g)) then [] else [EvLsRemote remote branch])
          ++ [EvPull (if isSome (normalize_upstream (r_upstream g)) then None
                      else Some (remote, branch)); EvStatus]
          ++ report_events "Pull" (r_conflicted g),
        inl (failure_error EPullFailed rerun (r_conflicted g))))%list
  /\ (forall g remote sourceBranch rerun,
        r_fetch_ok g && r_merge_ok g = false ->
        mergeRemoteBranchIntoCurrent remote sourceBranch rerun g
        = (EvFetch remote sourceBranch
             :: (if r_fetch_ok g then [EvMerge (remote ++ "/" ++ sourceBranch)] else [])
             ++ EvStatus :: report_events "Merge" (r_conflicted g),
           inl (failure_error EMergeFailed rerun (r_conflicted g))))%list
  /\ (forall what cs p, In p cs -> includes ("  " ++ p) (conflict_report what cs) = true)
  /\ (forall rerun cs, kind (failure_error EPullFailed rerun cs)
                       = if Nat.eqb (length cs) 0 then SyncFailed else MergeConflict)
  /\ (forall rerun cs, kind (failure_error EMergeFailed rerun cs)
                       = if Nat.eqb (length cs) 0 then SyncFailed else MergeConflict).
Proof.
  split; [|split; [|split; [exact conflict_report_lists|split]]].
  - intros g remote branch rerun Hpull Hatt.
    unfold pull_attempted in Hatt.
    unfold pullIfPossible, getUpstreamRef, remoteBranchExists, on_failure, git_pull,
      report_events, failure_error.
    cbv [bind ret throw query emit catch]. cbn -[normalize_upstream conflict_report trim].
    destruct (isSome (normalize_upstream (r_upstream g))) eqn:U;
      cbn -[normalize_upstream conflict_report trim] in Hatt |- *.
    + rewrite Hpull. cbn -[conflict_report].
      destruct (length (r_conflicted g)); reflexivity.
    + destruct (r_ls_remote g remote branch) as [o|]; [|discriminate].
      rewrite Hatt. cbn -[conflict_report]. rewrite Hpull. cbn -[conflict_report].
      destruct (length (r_conflicted g)); reflexivity.
  - intros g remote sourceBranch rerun Hfail.
    unfold mergeRemoteBranchIntoCurrent, on_failure, git_fetch, git_merge,
      report_events, failure_error.
    cbv [bind ret throw query emit catch]. cbn -[conflict_report].
    destruct (r_fetch_ok g); cbn -[conflict_report] in Hfail |- *;
      [rewrite Hfail; cbn -[conflict_report]|];
      destruct (length (r_conflicted g)); reflexivity.
  - intros rerun cs. unfold failure_error. destruct (Nat.eqb (length cs) 0); reflexivity.
  - intros rerun cs. unfold failure_error. destruct (Nat.eqb (length cs) 0); reflexivity.
Qed.

Definition with_sync (pull_ok fetch_ok merge_ok : bool) (conflicted : list string)
    (g : Repo) : Repo :=
  {| r_is_repo := r_is_repo g; r_current := r_current g;
     r_status_files := r_status_files g; r_staged := r_staged g; r_tty := r_tty g;
     r_subject_answer := r_subject_answer g; r_type_answer := r_type_answer g;
     r_scope_answer := r_scope_answer g; r_upstream := r_upstream g;
     r_remotes := r_remotes g; r_ls_remote := r_ls_remote g;
     r_pull_ok := pull_ok; r_fetch_ok := fetch_ok; r_merge_ok := merge_ok;
     r_conflicted := conflicted;
     r_remote_url := r_remote_url g; r_on_path := r_on_path g; r_run := r_run g |}.

Definition repo_conflicted : Repo := with_sync false true false ["src/a.ts"; "src/b.ts"] repo0.

Lemma pull_merge_failure_handling_witness :
  pullIfPossible "origin" "feat-x" "to-main" repo_conflicted
  = ([EvRevParseUpstream; EvPull None; EvStatus;
      EvStderr (conflict_report "Pull" ["src/a.ts"; "src/b.ts"])],
     inl (EConflict "to-main"))
  /\ mergeRemoteBranchIntoCurrent "origin" "feat-x" "to-test" repo_conflicted
  = ([EvFetch "origin" "feat-x"; EvMerge "origin/feat-x"; EvStatus;
      EvStderr (conflict_report "Merge" ["src/a.ts"; "src/b.ts"])],
     inl (EConflict "to-test"))
  /\ includes "  src/b.ts" (conflict_report "Pull" ["src/a.ts"; "src/b.ts"]) = true.
Proof.
  destruct pull_merge_failure_handling as (Hpull & Hmerge & Hlist & _).
  split; [|split].
  - exact (Hpull repo_conflicted "origin" "feat-x" "to-main" eq_refl eq_refl).
  - exact (Hmerge repo_conflicted "origin" "feat-x" "to-test" eq_refl).
  - apply (Hlist "Pull" ["src/a.ts"; "src/b.ts"] "src/b.ts"). right; left; reflexivity.
Defined.

(* ------------------------------------------------------------------ *)
(** ** Provider CLI fallback *)

Definition tool_args (tool sourceBranch targetBranch : string) : list string :=
  if String.eqb tool "glab" then glab_args sourceBranch targetBranch
  else gh_args sourceBranch targetBranch.
Definition tool_what (tool : string) : string :=
  if String.eqb tool "glab" then "merge request" else "pull request".

Lemma try_tools_first_failure (g : Repo) (mrUrl : option string) (s t : string)
    (pre : list string) (tool : string) (post : list string)
    (code : nat) (stdout stderr : string) :
  tool = "glab" \/ tool = "gh" ->
  forallb (fun c => negb (r_on_path g c)) pre = true ->
  r_on_path g tool = true ->
  r_run g tool (tool_args tool s t) = (code, stdout, stderr) -> code <> 0 ->
  try_tools mrUrl s t (pre ++ tool :: post) g
  = (map EvWhich pre ++ [EvWhich tool; EvRun tool (tool_args tool s t)],
     inl (EToolFailed (tool_failure (tool_what tool) tool stdout stderr)))%list.
Proof.
  intros Htool Hpre Hon Hrun Hcode.
  apply Nat.eqb_neq in Hcode.
  induction pre as [|c pre IH].
  - cbn [app try_tools]. unfold commandExists, runCommandCapture.
    cbv [bind ret throw query emit]. rewrite Hon. cbn [negb].
    destruct Htool as [->| ->]; cbn [String.eqb Ascii.eqb Bool.eqb andb];
      unfold tool_args, tool_what in Hrun |- *; cbn [String.eqb Ascii.eqb Bool.eqb andb] in Hrun |- *;
      rewrite Hrun; cbn -[tool_failure glab_args gh_args]; rewrite Hcode; reflexivity.
  - cbn [forallb] in Hpre. apply andb_true_iff in Hpre as [Hc Hpre].
    apply negb_true_iff in Hc.
    cbn [app try_tools]. unfold commandExists at 1.
    cbv [bind query]. rewrite Hc. cbn [negb].
    rewrite (IH Hpre). reflexivity.
Qed.

Lemma mr_candidates_tools (parsed : option ParsedRemote) (tool : string) :
  In tool (mr_candidates parsed) -> tool = "glab" \/ tool = "gh".
Proof.
  unfold mr_candidates. destruct (option_map provider parsed) as [[| |]|]; cbn;
    intros H; repeat (destruct H as [<-|H]; [auto|]); destruct H.
Qed.

(** Claim C10: request creation walks the candidate CLIs in order, skipping
    exactly those not on the path; the first one on the path is run, and if
    it exits non-zero the operation fails at once with that tool's error,
    whose text is built from the tool's output only (no manual URL); the
    other candidate is never probed or run after it. *)
Theorem createMergeRequest_first_tool_failure (g : Repo) (parsed : option ParsedRemote)
    (sourceBranch targetBranch : string) (pre : list string) (tool : string)
    (post : list string) (code : nat) (stdout stderr : string) :
  mr_candidates parsed = (pre ++ tool :: post)%list ->
  forallb (fun c => negb (r_on_path g c)) pre = true ->
  r_on_path g tool = true ->
  r_run g tool (tool_args tool sourceBranch targetBranch) = (code, stdout, stderr) ->
  code <> 0 ->
  createMergeRequest parsed sourceBranch targetBranch g
  = (map EvWhich pre ++ [EvWhich tool; EvRun tool (tool_args tool sourceBranch targetBranch)],
     inl (EToolFailed (tool_failure (tool_what tool) tool stdout stderr)))%list.
Proof.
  intros Hc Hpre Hon Hrun Hcode.
  assert (Ht : tool = "glab" \/ tool = "gh").
  { apply (mr_candidates_tools parsed). rewrite Hc. apply in_elt. }
  unfold createMergeRequest. rewrite Hc.
  apply (try_tools_first_failure g _ _ _ pre tool post code stdout stderr); assumption.
Qed.

Definition repo_gh_fails : Repo :=
  {| r_is_repo := true; r_current := "feat-x"; r_status_files := []; r_staged := "";
     r_tty := false; r_subject_answer := ""; r_type_answer := ""; r_scope_answer := "";
     r_upstream := Some "origin/feat-x"; r_remotes := ["origin"];
     r_ls_remote := fun _ _ => None; r_pull_ok := true; r_fetch_ok := true;
     r_merge_ok := true; r_conflicted := [];
     r_remote_url := fun _ => "git@github.com:acme/widget.git";
     r_on_path := fun _ => true;
     r_run := fun _ _ => (1, "", "HTTP 401: Bad credentials") |}.

Lemma createMergeRequest_first_tool_failure_witness :
  createMergeRequest (parseRemoteUrl "git@github.com:acme/widget.git") "feat-x" "main" repo_gh_fails
  = ([EvWhich "gh"; EvRun "gh" (gh_args "feat-x" "main")],
     inl (EToolFailed (tool_failure "pull request" "gh" "" "HTTP 401: Bad credentials"))).
Proof.
  exact (createMergeRequest_first_tool_failure repo_gh_fails
           (parseRemoteUrl "git@github.com:acme/widget.git") "feat-x" "main" [] "gh" ["glab"]
           1 "" "HTTP 401: Bad credentials" eq_refl eq_refl eq_refl eq_refl ltac:(discriminate)).
Defined.

(** Closes a membership goal in a concrete list. *)
Ltac in_concrete := vm_compute; repeat (first [left; reflexivity | right]).

Lemma index_of_app (c : ascii) (r b : string) :
  string_exists (Ascii.eqb c) r = false ->
  index_of_from c (r ++ String c b) 0 = Some (String.length r).
Proof.
  induction r as [|d r IH]; cbn [string_exists append index_of_from String.length].
  - rewrite Ascii.eqb_refl. reflexivity.
  - intros H. apply orb_false_iff in H as [Hd Hr]. rewrite Hd, (IH Hr). reflexivity.
Qed.

Lemma index_of_some (c : ascii) (s : string) (k : nat) :
  index_of_from c s 0 = Some k ->
  exists r b, s = r ++ String c b /\ String.length r = k /\ string_exists (Ascii.eqb c) r = false.
Proof.
  revert k. induction s as [|d s IH]; intros k; cbn [index_of_from]; [discriminate|].
  destruct (Ascii.eqb c d) eqn:E.
  - intros H. injection H as <-. apply Ascii.eqb_eq in E. subst d.
    exists "", s. repeat split.
  - destruct (index_of_from c s 0) as [k'|] eqn:Hs; cbn; [|discriminate].
    intros H. injection H as <-.
    destruct (IH k' eq_refl) as (r & b & -> & <- & Hr).
    exists (String d r), b. cbn. rewrite E, Hr. repeat split.
Qed.

Lemma substring_app_prefix (r x : string) : substring 0 (String.length r) (r ++ x) = r.
Proof. induction r as [|c r IH]; [destruct x; reflexivity|]. cbn. rewrite IH. reflexivity. Qed.

(** [getRemoteFromUpstream] returns [r] exactly when the upstream ref is
    [r ++ "/" ++ b] for some [b], with [r] non-empty and free of [/]: the
    remote is the text before the first slash, and a ref without a slash
    or starting with one gives no remote. *)
Theorem getRemoteFromUpstream_spec (upstream r : string) :
  getRemoteFromUpstream upstream = Some r
  <-> r <> "" /\ string_exists (Ascii.eqb "/") r = false /\ exists b, upstream = r ++ "/" ++ b.
Proof.
  unfold getRemoteFromUpstream. split.
  - destruct (index_of_from "/" upstream 0) as [k|] eqn:E; [|discriminate].
    destruct k as [|k]; [discriminate|].
    intros H. injection H as <-.
    destruct (index_of_some _ _ _ E) as (r & b & -> & Hl & Hr).
    unfold slice. rewrite Nat.sub_0_r, <- Hl, substring_app_prefix.
    split; [intros ->; discriminate|]. split; [exact Hr|]. exists b. reflexivity.
  - intros (Hne & Hr & b & ->).
    change ("/" ++ b) with (String "/" b). rewrite index_of_app by exact Hr.
    destruct r as [|c r']; [congruence|].
    cbn [String.length]. unfold slice. rewrite Nat.sub_0_r.
    change (S (String.length r')) with (String.length (String c r')).
    rewrite substring_app_prefix. reflexivity.
Qed.

Lemma recognized_lower (t : string) :
  isRecognizedCommitType (Some t) = true -> t <> "" /\ string_forall is_lower t = true.
Proof.
  unfold isRecognizedCommitType. destruct (String.eqb t "") eqn:E; [discriminate|].
  intros H. apply existsb_exists in H as (t' & Hin & Heq).
  apply String.eqb_eq in Heq. subst t'.
  repeat (destruct Hin as [<-|Hin]; [split; [discriminate|reflexivity]|]). destruct Hin.
Qed.

Lemma lower_run_app (t rest : string) :
  string_forall is_lower t = true ->
  match rest with String c _ => is_lower c = false | EmptyString => True end ->
  lower_run (t ++ rest) = (String.length t, rest).
Proof.
  intros Ht Hr. induction t as [|c t IH].
  - destruct rest as [|c r]; [reflexivity|]. cbn. rewrite Hr. reflexivity.
  - cbn [string_forall] in Ht. apply andb_true_iff in Ht as [Hc Ht].
    cbn [append lower_run]. rewrite Hc, (IH Ht). reflexivity.
Qed.

Lemma scope_run_app (sc rest : string) :
  string_exists (fun c => Ascii.eqb c ")") sc = false ->
  scope_run (sc ++ String ")" rest) = (String.length sc, String ")" rest).
Proof.
  induction sc as [|c sc IH]; intros H; [reflexivity|].
  cbn [string_exists] in H. apply orb_false_iff in H as [Hc H].
  cbn [append scope_run]. rewrite Hc, (IH H). reflexivity.
Qed.

Lemma trim_end_app (x y : string) :
  trim_end y <> "" -> trim_end (x ++ y) = x ++ trim_end y.
Proof.
  intros Hy. induction x as [|c x IH]; [reflexivity|].
  cbn [append trim_end]. rewrite IH.
  destruct (x ++ trim_end y) eqn:E.
  - destruct x; cbn in E; [contradiction|discriminate].
  - rewrite andb_false_r. reflexivity.
Qed.

Lemma trim_end_trim (m : string) : trim_end (trim m) = trim m.
Proof. unfold trim. apply trim_end_idem. Qed.

Lemma trim_nonspace_head (c : ascii) (x m : string) :
  is_space c = false -> trim m <> "" ->
  trim (String c x ++ trim m) = String c x ++ trim m.
Proof.
  intros Hc Hm. unfold trim at 1. cbn [append trim_start]. rewrite Hc.
  change (String c (x ++ trim m)) with (String c x ++ trim m).
  rewrite trim_end_app; rewrite trim_end_trim; [reflexivity|exact Hm].
Qed.

Lemma lower_not_space (c : ascii) : is_lower c = true -> is_space c = false.
Proof. destruct c as [[] [] [] [] [] [] [] []]; vm_compute; congruence. Qed.

(** The message composed from a recognized type, an optional scope free
    of [)] and a non-blank message has a conventional prefix. *)
Lemma composed_prefixed (t scope m : string) :
  isRecognizedCommitType (Some t) = true -> trim m <> "" ->
  string_exists (fun c => Ascii.eqb c ")") scope = false ->
  hasConventionalPrefix
    (if negb (String.eqb scope "") then t ++ "(" ++ scope ++ "): " ++ trim m
     else t ++ ": " ++ trim m) = true.
Proof.
  intros Ht Hm Hs.
  destruct (recognized_lower t Ht) as [Hne Hl].
  destruct t as [|c t']; [congruence|].
  assert (Hc : is_space c = false).
  { apply lower_not_space. cbn in Hl. apply andb_true_iff in Hl as [Hl _]. exact Hl. }
  unfold hasConventionalPrefix.
  destruct (String.eqb scope "") eqn:Es; cbn [negb].
  - rewrite <- sappend_assoc.
    change (String c t' ++ ": ") with (String c (t' ++ ": ")).
    rewrite trim_nonspace_head by assumption.
    change (String c (t' ++ ": ")) with (String c t' ++ ": ").
    unfold prefix_regex_test. rewrite sappend_assoc.
    rewrite lower_run_app by (exact Hl || reflexivity).
    cbn -[trim]. destruct (trim m) as [|d r] eqn:Em; [congruence|]. reflexivity.
  - assert (E : String c t' ++ "(" ++ scope ++ "): " ++ trim m
                 = String c (t' ++ "(" ++ scope ++ "): ") ++ trim m)
      by (change (String c (t' ++ "(" ++ scope ++ "): ") ++ trim m)
            with (String c ((t' ++ "(" ++ scope ++ "): ") ++ trim m));
          rewrite !sappend_assoc; reflexivity).
    rewrite E, trim_nonspace_head by assumption. rewrite <- E.
    unfold prefix_regex_test.
    rewrite lower_run_app by (exact Hl || reflexivity).
    cbn [after_type Ascii.eqb Bool.eqb append].
    change ("(" ++ scope ++ "): " ++ trim m) with (String "(" (scope ++ String ")" (": " ++ trim m))).
    cbn [after_type]. change (Ascii.eqb "(" "(") with true. cbv iota beta.
    rewrite scope_run_app by exact Hs.
    apply String.eqb_neq in Es.
    destruct scope as [|x sc]; [congruence|]. cbn -[trim].
    destruct (trim m); reflexivity.
Qed.

Lemma finalMessage_of_prefixed (x : string) (ctype : option string) (scope : string) :
  hasConventionalPrefix x = true -> finalMessage x ctype scope = x.
Proof. intros H. unfold finalMessage. rewrite H. reflexivity. Qed.

Lemma finalMessage_prefixed_core (message : string) (ctype : option string) (scope : string) :
  hasConventionalPrefix message = true
  \/ (exists t, ctype = Some t /\ isRecognizedCommitType (Some t) = true /\ trim message <> "") ->
  string_exists (fun c => Ascii.eqb c ")") scope = false ->
  hasConventionalPrefix (finalMessage message ctype scope) = true.
Proof.
  intros H Hs. unfold finalMessage.
  destruct (hasConventionalPrefix message) eqn:P; [exact P|].
  destruct H as [H|(t & -> & Ht & Hm)]; [discriminate|].
  cbn [orb isSome negb or_empty]. apply composed_prefixed; assumption.
Qed.

(** With a recognized type, a message that is not blank after trimming and
    a scope without [)], [finalMessage] produces a message with a
    conventional prefix; applying [finalMessage] to that message again,
    with any type and scope, leaves it unchanged. *)
Theorem finalMessage_prefix_idempotent (message t scope : string) :
  isRecognizedCommitType (Some t) = true -> trim message <> "" ->
  string_exists (fun c => Ascii.eqb c ")") scope = false ->
  hasConventionalPrefix (finalMessage message (Some t) scope) = true
  /\ (forall ctype' scope',
        finalMessage (finalMessage message (Some t) scope) ctype' scope'
        = finalMessage message (Some t) scope).
Proof.
  intros Ht Hm Hs.
  assert (P : hasConventionalPrefix (finalMessage message (Some t) scope) = true).
  { apply finalMessage_prefixed_core; [right; exists t; auto|exact Hs]. }
  split; [exact P|]. intros ctype' scope'. apply finalMessage_of_prefixed, P.
Qed.

Lemma finalMessage_prefix_idempotent_witness :
  (hasConventionalPrefix (finalMessage " add login " (Some "feat") "auth") = true
   /\ (forall ctype' scope',
         finalMessage (finalMessage " add login " (Some "feat") "auth") ctype' scope'
         = finalMessage " add login " (Some "feat") "auth"))
  /\ finalMessage " add login " (Some "feat") "auth" = "feat(auth): add login".
Proof.
  split; [|reflexivity].
  apply finalMessage_prefix_idempotent; [reflexivity|discriminate|reflexivity].
Defined.

(** When the working tree is clean, or staging leaves an empty (or blank)
    cached diff, [commitIfDirty] succeeds without committing: it stops
    after [git status], or after [git add -A] and [git diff --cached]. *)
Theorem commitIfDirty_nothing_to_commit (options : CommitOptions) (g : Repo) :
  r_status_files g = [] \/ trim (r_staged g) = "" ->
  commitIfDirty options g
  = (if Nat.eqb (length (r_status_files g)) 0 then [EvStatus]
     else [EvStatus; EvAdd ["-A"]; EvDiffCached], inr tt).
Proof.
  intros H. unfold commitIfDirty. cbv [bind ret query emit].
  destruct (r_status_files g) as [|f fs]; [reflexivity|].
  destruct H as [H|H]; [discriminate|]. cbn -[trim]. rewrite H. reflexivity.
Qed.

Lemma commitIfDirty_nothing_to_commit_witness :
  commitIfDirty {| commitMessage := None; commitType := Some "bogus" |}
    {| r_is_repo := true; r_current := "feat-x"; r_status_files := ["src/a.ts"];
       r_staged := String "010" ""; r_tty := false; r_subject_answer := "";
       r_type_answer := ""; r_scope_answer := ""; r_upstream := None; r_remotes := [];
       r_ls_remote := fun _ _ => None; r_pull_ok := true; r_fetch_ok := true;
       r_merge_ok := true; r_conflicted := []; r_remote_url := fun _ => "";
       r_on_path := fun _ => false; r_run := fun _ _ => (0, "", "") |}
  = ([EvStatus; EvAdd ["-A"]; EvDiffCached], inr tt).
Proof. apply commitIfDirty_nothing_to_commit. right. reflexivity. Defined.

Ltac split_conds :=
  repeat (match goal with
          | |- context [if ?b then _ else _] => destruct b eqn:?
          | |- context [match ?x with inl _ => _ | inr _ => _ end] => destruct x eqn:?
          end;
          cbn -[isRecognizedCommitType hasConventionalPrefix trim truthy finalMessage]).

(** Without a TTY, [commitIfDirty] never prompts: its git calls are a
    prefix of [status], [add -A], [diff --cached] and one commit. *)
Theorem commitIfDirty_noninteractive_no_prompt (options : CommitOptions) (g : Repo) :
  r_tty g = false ->
  exists m n, trace (commitIfDirty options) g
              = firstn n [EvStatus; EvAdd ["-A"]; EvDiffCached; EvCommit m].
Proof.
  intros Htty. unfold trace. run_m. split_conds.
  all: try rewrite Htty in *; cbn in *; try discriminate.
  all: first [ exists "", 1; reflexivity | exists "", 3; reflexivity
             | eexists; exists 4; reflexivity ].
Qed.

Lemma commitIfDirty_noninteractive_no_prompt_witness :
  exists m n, trace (commitIfDirty {| commitMessage := None; commitType := None |})
                (with_tty false repo0)
              = firstn n [EvStatus; EvAdd ["-A"]; EvDiffCached; EvCommit m].
Proof. exact (commitIfDirty_noninteractive_no_prompt _ (with_tty false repo0) eq_refl). Defined.

Lemma truthy_trim_nonempty (o : option string) :
  truthy (option_map trim o) = true -> trim (or_empty (option_map trim o)) <> "".
Proof.
  destruct o as [m|]; [|discriminate]. cbn [option_map or_empty]. rewrite trim_idem.
  intros H E. rewrite E in H. discriminate.
Qed.

(** When the answers given at the prompts are a recognized type, a subject
    that is not blank and a scope without [)], every message that
    [commitIfDirty] commits has a conventional prefix, whatever options
    were passed. *)
Theorem commitIfDirty_commit_prefixed (options : CommitOptions) (g : Repo) (m : string) :
  isRecognizedCommitType (Some (r_type_answer g)) = true ->
  trim (r_subject_answer g) <> "" ->
  string_exists (fun c => Ascii.eqb c ")") (r_scope_answer g) = false ->
  In (EvCommit m) (trace (commitIfDirty options) g) -> hasConventionalPrefix m = true.
Proof.
  intros Htype Hsubj Hscope. unfold trace. run_m. split_conds.
  all: intros H; cbn in H; repeat destruct H as [H|H]; try discriminate; try contradiction.
  all: injection H as <-.
  all: apply finalMessage_prefixed_core; [|first [exact Hscope | reflexivity]].
  all: repeat match goal with
         | H : negb _ = false |- _ => apply negb_false_iff in H
         | H : negb _ = true |- _ => apply negb_true_iff in H
         | H : _ && _ = true |- _ => apply andb_prop in H; destruct H
         | H : _ || _ = false |- _ => apply orb_false_elim in H; destruct H
         end.
  all: try discriminate.
  all: first
    [ left; assumption
    | right; eexists; split; [reflexivity|]; split; [eassumption|];
      first [ rewrite trim_idem; exact Hsubj | apply truthy_trim_nonempty; assumption ] ].
Qed.

Lemma commitIfDirty_commit_prefixed_witness :
  In (EvCommit "feat(auth): add login")
     (trace (commitIfDirty {| commitMessage := None; commitType := None |}) repo0)
  /\ hasConventionalPrefix "feat(auth): add login" = true.
Proof.
  assert (H : In (EvCommit "feat(auth): add login")
                 (trace (commitIfDirty {| commitMessage := None; commitType := None |}) repo0))
    by in_concrete.
  split; [exact H|].
  exact (commitIfDirty_commit_prefixed _ repo0 _ eq_refl ltac:(vm_compute; discriminate)
           eq_refl H).
Defined.

Lemma array_from_set_fold_in (xs acc : list string) (x : string) :
  In x (fold_left (fun acc x => if existsb (String.eqb x) acc then acc else (acc ++ [x])%list) xs acc)
  <-> In x acc \/ In x xs.
Proof.
  revert acc. induction xs as [|y ys IH]; intros acc; cbn.
  - tauto.
  - rewrite IH. destruct (existsb (String.eqb y) acc) eqn:E.
    + apply existsb_exists in E as [z [Hz Ez]]. apply String.eqb_eq in Ez. subst z.
      split; [tauto|]. intros [H|[H|H]]; [tauto| subst; tauto | tauto].
    + rewrite in_app_iff. cbn. split; intros [H|H]; tauto.
Qed.

Lemma array_from_set_fold_nodup (xs acc : list string) :
  NoDup acc ->
  NoDup (fold_left (fun acc x => if existsb (String.eqb x) acc then acc else (acc ++ [x])%list) xs acc).
Proof.
  revert acc. induction xs as [|y ys IH]; intros acc Hnd; cbn; [exact Hnd|].
  apply IH. destruct (existsb (String.eqb y) acc) eqn:E; [exact Hnd|].
  apply NoDup_app; [exact Hnd | constructor; [intros []|constructor] |].
  intros z Hz [<-|[]]. assert (existsb (String.eqb y) acc = true) as E'.
  { apply existsb_exists. exists y. split; [exact Hz| apply String.eqb_refl]. }
  congruence.
Qed.

Lemma array_from_set_in (xs : list string) (x : string) :
  In x (array_from_set xs) <-> In x xs.
Proof. unfold array_from_set. rewrite array_from_set_fold_in. cbn. tauto. Qed.

Lemma array_from_set_nodup (xs : list string) : NoDup (array_from_set xs).
Proof. apply array_from_set_fold_nodup. constructor. Qed.

Lemma filter_truthy_in (os : list (option string)) (x : string) :
  In x (filter_truthy os) <-> In (Some x) os /\ x <> "".
Proof.
  induction os as [|o os IH]; cbn.
  - tauto.
  - destruct o as [s|]; cbn.
    + destruct (String.eqb s "") eqn:E; cbn.
      * apply String.eqb_eq in E. subst s. rewrite IH.
        split; [tauto|]. intros [[H|H] Hx]; [congruence|tauto].
      * apply String.eqb_neq in E. rewrite IH.
        split; [intros [<-|[H1 H2]]; tauto|]. intros [[H|H] Hx]; [left; congruence|tauto].
    + rewrite IH. split; [tauto|]. intros [[H|H] Hx]; [discriminate|tauto].
Qed.

Lemma normalizeScope_some (v : JValue) (x : string) :
  normalizeScope v = Some x ->
  x <> "" /\ string_exists is_space x = false /\ string_exists is_paren x = false
  /\ normalizeScope (JString x) = Some x.
Proof.
  destruct v; cbn; try discriminate.
  destruct (String.eqb (trim s) "") eqn:E1; [discriminate|].
  destruct (string_exists is_space (trim s)) eqn:E2; [discriminate|].
  destruct (string_exists is_paren (trim s)) eqn:E3; [discriminate|].
  intros H; injection H as <-. apply String.eqb_neq in E1.
  rewrite trim_idem. apply String.eqb_neq in E1 as E1'. rewrite E1', E2, E3. auto.
Qed.

Lemma normalized_in (xs : list JValue) (x : string) :
  In x (filter_truthy (map normalizeScope xs)) <-> exists v, In v xs /\ normalizeScope v = Some x.
Proof.
  rewrite filter_truthy_in, in_map_iff. split.
  - intros [[v [Hv Hin]] _]. eauto.
  - intros [v [Hin Hv]]. split; [eauto|]. apply (normalizeScope_some v x Hv).
Qed.

Lemma loadCicdConfigScopes_elems (config : option JValue) (scopes : list string) (x : string) :
  loadCicdConfigScopes config = Some scopes -> In x scopes ->
  x <> "" /\ normalizeScope (JString x) = Some x.
Proof.
  destruct config as [[| | | | |fields]|]; cbn -[array_from_set filter_truthy json_get normalizeScope]; try (intros H; discriminate H).
  destruct (json_get "scopes" fields) as [[| | | |xs|]|] eqn:Eg; try (intros H; discriminate H).
  intros H. destruct (array_from_set _) eqn:E; [discriminate|].
  injection H as <-. intros Hx. rewrite <- E in Hx.
  apply array_from_set_in, normalized_in in Hx as [v [_ Hv]].
  apply normalizeScope_some in Hv. tauto.
Qed.

(** A scope list loaded by [loadCicdConfigScopes] is non-empty and free of
    duplicates, and each entry is a normalized scope; the configuration
    is an object whose [scopes] field is an array, and the entries are
    exactly the normalized values of that array. *)
Theorem loadCicdConfigScopes_sound (config : option JValue) (scopes : list string) :
  loadCicdConfigScopes config = Some scopes ->
  scopes <> [] /\ NoDup scopes
  /\ (forall x, In x scopes -> x <> "" /\ normalizeScope (JString x) = Some x)
  /\ exists fields xs, config = Some (JObject fields)
       /\ json_get "scopes" fields = Some (JArray xs)
       /\ forall x, In x scopes <-> exists v, In v xs /\ normalizeScope v = Some x.
Proof.
  destruct config as [[| | | | |fields]|]; cbn -[array_from_set filter_truthy json_get normalizeScope]; try (intros H; discriminate H).
  destruct (json_get "scopes" fields) as [[| | | |xs|]|] eqn:Eg; try (intros H; discriminate H).
  assert (Hnd := array_from_set_nodup (filter_truthy (map normalizeScope xs))).
  assert (Hin := array_from_set_in (filter_truthy (map normalizeScope xs))).
  destruct (array_from_set (filter_truthy (map normalizeScope xs))) as [|y ys] eqn:E;
    [intros H; discriminate H|].
  intros H; injection H as <-.
  split; [discriminate|].
  split; [exact Hnd|].
  split.
  - intros x Hx. apply Hin, normalized_in in Hx as [v [_ Hv]].
    apply normalizeScope_some in Hv. tauto.
  - exists fields, xs. split; [reflexivity|]. split; [exact Eg|].
    intros x. rewrite Hin. apply normalized_in.
Qed.

Definition scopes_json0 : list JValue :=
  [JString " api "; JString "ui"; JString "api"; JString ""; JNumber 3; JString "a b"].
Definition config_fields0 : list (string * JValue) := [("scopes", JArray scopes_json0)].

Lemma loadCicdConfigScopes_sound_witness :
  loadCicdConfigScopes (Some (JObject config_fields0)) = Some ["api"; "ui"]
  /\ NoDup ["api"; "ui"].
Proof.
  assert (H : loadCicdConfigScopes (Some (JObject config_fields0)) = Some ["api"; "ui"])
    by (vm_compute; reflexivity).
  split; [exact H|]. exact (proj1 (proj2 (loadCicdConfigScopes_sound _ _ H))).
Defined.

(** Every value of the [scopes] array that normalizes to a scope makes
    [loadCicdConfigScopes] return a list, and that scope is in it. *)
Theorem loadCicdConfigScopes_complete (fields : list (string * JValue)) (xs : list JValue)
    (v : JValue) (x : string) :
  json_get "scopes" fields = Some (JArray xs) -> In v xs -> normalizeScope v = Some x ->
  exists scopes, loadCicdConfigScopes (Some (JObject fields)) = Some scopes /\ In x scopes.
Proof.
  intros Eg Hin Hv. cbn -[array_from_set filter_truthy json_get normalizeScope]. rewrite Eg.
  assert (Hx : In x (array_from_set (filter_truthy (map normalizeScope xs)))).
  { apply array_from_set_in, normalized_in. eauto. }
  destruct (array_from_set (filter_truthy (map normalizeScope xs))) as [|y ys] eqn:E;
    [destruct Hx|]. cbn. eauto.
Qed.

Lemma loadCicdConfigScopes_complete_witness :
  exists scopes, loadCicdConfigScopes (Some (JObject config_fields0)) = Some scopes
                 /\ In "api" scopes.
Proof.
  exact (loadCicdConfigScopes_complete config_fields0 scopes_json0 (JString " api ") "api"
           eq_refl ltac:(in_concrete) eq_refl).
Defined.

Lemma no_paren_no_close (s : string) :
  string_exists is_paren s = false -> string_exists (fun c => Ascii.eqb c ")") s = false.
Proof.
  induction s as [|c s IH]; cbn; [reflexivity|].
  unfold is_paren. intros H. apply orb_false_elim in H as [H1 H2].
  apply orb_false_elim in H1 as [_ H1]. rewrite H1, IH; auto.
Qed.

Lemma validate_scope_trim (entered : string) :
  validate_scope entered = true ->
  trim entered = "" \/ normalizeScope (JString (trim entered)) = Some (trim entered).
Proof.
  unfold validate_scope. cbn [normalizeScope]. rewrite trim_idem.
  destruct (String.eqb (trim entered) "") eqn:E1.
  - intros _. left. apply String.eqb_eq. exact E1.
  - destruct (string_exists is_space (trim entered)); [discriminate|].
    destruct (string_exists is_paren (trim entered)); [discriminate|]. auto.
Qed.

(** The scope chosen by [promptCommitScope] is empty or a normalized scope
    (non-empty, no white space, no parentheses), so it never contains
    [)]: the picked value comes from the offered choices, and typed text
    is accepted only when it validates. *)
Theorem promptCommitScope_value_valid (config : option JValue) (picked entered : string) :
  (forall ss, loadCicdConfigScopes config = Some ss -> In picked (scope_choices ss)) ->
  validate_scope entered = true ->
  let v := promptCommitScope_value (loadCicdConfigScopes config) picked entered in
  (v = "" \/ normalizeScope (JString v) = Some v)
  /\ string_exists (fun c => Ascii.eqb c ")") v = false.
Proof.
  intros Hpick Hval v.
  assert (Hv : v = "" \/ normalizeScope (JString v) = Some v).
  { subst v. destruct (loadCicdConfigScopes config) as [[|s ss]|] eqn:E;
      cbn [promptCommitScope_value]; try (apply validate_scope_trim; exact Hval).
    destruct (String.eqb picked "__custom__") eqn:Ec; cbn [negb];
      [apply validate_scope_trim; exact Hval|].
    specialize (Hpick _ eq_refl). unfold scope_choices in Hpick.
    destruct Hpick as [<-|Hpick]; [left; reflexivity|].
    apply in_app_iff in Hpick as [Hpick|[Hpick|[]]].
    - right. exact (proj2 (loadCicdConfigScopes_elems _ _ _ E Hpick)).
    - subst picked. discriminate Ec. }
  split; [exact Hv|]. destruct Hv as [-> | Hv]; [reflexivity|].
  apply no_paren_no_close. apply normalizeScope_some in Hv. tauto.
Qed.

Lemma promptCommitScope_value_valid_witness :
  string_exists (fun c => Ascii.eqb c ")")
    (promptCommitScope_value (loadCicdConfigScopes (Some (JObject config_fields0))) "api" "")
  = false.
Proof.
  refine (proj2 (promptCommitScope_value_valid (Some (JObject config_fields0)) "api" "" _ eq_refl)).
  intros ss H. vm_compute in H. injection H as <-. in_concrete.
Defined.

(** When no pull is attempted, or the pull succeeds, [pullIfPossible]
    succeeds: it reads the upstream, checks the remote branch only when
    there is no upstream, and pulls plainly with an upstream, or from
    [remote] and [branch] without one. *)
Theorem pullIfPossible_success (g : Repo) (remote branch rerun : string) :
  pull_attempted g remote branch = false \/ r_pull_ok g = true ->
  pullIfPossible remote branch rerun g
  = (EvRevParseUpstream
       :: (if isSome (normalize_upstream (r_upstream g)) then [] else [EvLsRemote remote branch])
       ++ (if pull_attempted g remote branch
           then [EvPull (if isSome (normalize_upstream (r_upstream g)) then None
                         else Some (remote, branch))]
           else []), inr tt)%list.
Proof.
  unfold pull_attempted.
  cbv [pullIfPossible getUpstreamRef remoteBranchExists git_pull on_failure
       bind ret throw query emit catch].
  destruct (normalize_upstream (r_upstream g)) as [u|]; cbn;
    [|destruct (r_ls_remote g remote branch) as [o|]; cbn;
      [destruct (String.eqb (trim o) "")|]; cbn];
    intros H; try reflexivity;
    destruct (r_pull_ok g); try reflexivity; destruct H; discriminate.
Qed.

Lemma pullIfPossible_success_witness :
  pullIfPossible "origin" "feat-x" "to-self" repo0 = ([EvRevParseUpstream; EvPull None], inr tt).
Proof. exact (pullIfPossible_success repo0 "origin" "feat-x" "to-self" (or_intror eq_refl)). Defined.

Lemma pullIfPossible_rerun (g : Repo) (remote branch n1 n2 : string) :
  fst (pullIfPossible remote branch n2 g) = fst (pullIfPossible remote branch n1 g)
  /\ snd (pullIfPossible remote branch n2 g)
     = match snd (pullIfPossible remote branch n1 g) with
       | inl (EConflict _) => inl (EConflict n2)
       | r => r
       end.
Proof.
  cbv [pullIfPossible getUpstreamRef remoteBranchExists git_pull on_failure
       bind ret throw query emit catch].
  destruct (normalize_upstream (r_upstream g)); cbn;
    [|destruct (r_ls_remote g remote branch) as [o|]; cbn;
      [destruct (String.eqb (trim o) "")|]; cbn];
    destruct (r_pull_ok g); cbn; auto;
    destruct (Nat.eqb (length (r_conflicted g)) 0); cbn; auto.
Qed.

(** [ensureLocalBranchFromRemote] ends on [branch] when it succeeds and on
    the branch it started from when it fails; it creates [branch] from
    [remote/branch] only when [branch] is not a local branch and the
    remote reports it, and creates [branch] from the current HEAD only
    when [branch] is not local. *)
Theorem ensureLocalBranchFromRemote_switch (g : Repo2) (cur remote branch : string) :
  let '(t, r, cur') := ensureLocalBranchFromRemote remote branch g cur in
  (r = inr tt -> cur' = branch)
  /\ (r <> inr tt -> cur' = cur)
  /\ (forall b s, In (EvCheckoutBranch b s) t ->
        b = branch /\ s = remote ++ "/" ++ branch /\ ~ In branch (r2_locals g)
        /\ exists o, r_ls_remote (r2_view g cur) remote branch = Some o /\ trim o <> "")
  /\ (forall b, In (EvCheckoutLocalBranch b) t -> b = branch /\ ~ In branch (r2_locals g)).
Proof.
  cbv [ensureLocalBranchFromRemote bind2 query2 lift switch_to remoteBranchExists
       bind ret query].
  assert (Hnl : existsb (String.eqb branch) (r2_locals g) = false -> ~ In branch (r2_locals g)).
  { intros El Hin. assert (existsb (String.eqb branch) (r2_locals g) = true) as E'.
    { apply existsb_exists. exists branch. split; [exact Hin|apply String.eqb_refl]. }
    congruence. }
  destruct (existsb (String.eqb branch) (r2_locals g)) eqn:El;
    [|specialize (Hnl eq_refl);
      destruct (r_ls_remote (r2_view g cur) remote branch) as [o|] eqn:Eo; cbn;
      [destruct (String.eqb (trim o) "") eqn:Et; cbn; [|apply String.eqb_neq in Et]|]].
  all: match goal with
    | |- context [r2_ok ?g0 ?e] => destruct (r2_ok g0 e)
    end; cbn.
  all: refine (conj _ (conj _ (conj _ _)));
    [ intros H; first [reflexivity | discriminate H]
    | intros H; first [reflexivity | exfalso; apply H; reflexivity]
    | intros b s H; repeat destruct H as [H|H];
      first [ discriminate H | contradiction
            | injection H as <- <-;
              split; [reflexivity|split; [reflexivity|split; [assumption|eauto]]] ]
    | intros b H; repeat destruct H as [H|H];
      first [ discriminate H | contradiction | injection H as <-; auto ] ].
Qed.

(** The [finally] step of [toTest] never fails: it reads the current
    branch and, if it differs from the source branch, tries to check the
    source branch out, staying where it is when the checkout fails. *)
Theorem restoreBranch_never_fails (g : Repo2) (cur sourceBranch : string) :
  restoreBranch sourceBranch g cur
  = if String.eqb cur sourceBranch then ([Ev EvBranch], inr tt, cur)
    else ([Ev EvBranch; EvCheckout sourceBranch], inr tt,
          if r2_ok g (EvCheckout sourceBranch) then sourceBranch else cur).
Proof.
  cbv [restoreBranch catch2 bind2 current_branch switch_to ret2].
  destruct (String.eqb cur sourceBranch); cbn; [reflexivity|].
  destruct (r2_ok g (EvCheckout sourceBranch)); reflexivity.
Qed.

Lemma restoreBranch_final (g : Repo2) (cur sourceBranch : string) :
  r2_ok g (EvCheckout sourceBranch) = true ->
  snd (restoreBranch sourceBranch g cur) = sourceBranch.
Proof.
  intros Hok. cbv [restoreBranch catch2 bind2 current_branch switch_to ret2].
  destruct (String.eqb cur sourceBranch) eqn:E; cbn.
  - apply String.eqb_eq. exact E.
  - rewrite Hok. reflexivity.
Qed.

Lemma lift_state {A} (m : M A) (g : Repo2) (cur : string) : snd (lift m g cur) = cur.
Proof. unfold lift. destruct (m (r2_view g cur)). reflexivity. Qed.

(** When the source branch can be checked out, [toTest] ends on the
    branch it started from, whether it succeeds or fails. *)
Theorem toTest_restores_branch (options : ToTestOptions) (g : Repo2) (cur : string) :
  r2_ok g (EvCheckout cur) = true -> snd (toTest options g cur) = cur.
Proof.
  intros Hok.
  assert (Hr := fun c => restoreBranch_final g c cur Hok).
  cbv [toTest bind2 throw2 current_branch finally2].
  repeat match goal with
         | |- context [match lift ?m ?g0 ?c with _ => _ end] =>
             let E := fresh "E" in
             assert (E := lift_state m g0 c);
             destruct (lift m g0 c) as [[? [?|?]] ?]; cbn in E; subst
         | |- context [if ?b then _ else _] => destruct b
         | |- context [match ensureLocalBranchFromRemote ?r ?b ?g0 ?c with _ => _ end] =>
             destruct (ensureLocalBranchFromRemote r b g0 c) as [[? [?|?]] ?]
         | |- context [match restoreBranch ?s ?g0 ?c with _ => _ end] =>
             let E := fresh "E" in
             assert (E := Hr c);
             destruct (restoreBranch s g0 c) as [[? [?|?]] ?]; cbn in E; subst
         end; cbn; try reflexivity.
Qed.

Definition repo2_0 : Repo2 :=
  {| r2_view := fun _ => repo0; r2_locals := ["feat-x"; "test"]; r2_ok := fun _ => true |}.

Lemma toTest_restores_branch_witness :
  snd (toTest {| testBranch := None; testCommitMessage := Some "feat: x"; testCommitType := None |}
         repo2_0 "feat-x") = "feat-x".
Proof. exact (toTest_restores_branch _ repo2_0 "feat-x" eq_refl). Defined.

Ltac close_events :=
  intros H; cbn in H; repeat destruct H as [H|H]; try contradiction; subst;
  first [ left; cbn; tauto | right; eauto ].

Lemma commitIfDirty_events (options : CommitOptions) (g : Repo) (e : Event) :
  In e (trace (commitIfDirty options) g) ->
  In e [EvStatus; EvAdd ["-A"]; EvDiffCached; EvPromptSubject; EvPromptType; EvPromptScope]
  \/ exists m, e = EvCommit m.
Proof. unfold trace. run_m. split_conds. all: close_events. Qed.

Lemma pullIfPossible_events (g : Repo) (remote branch rerun : string) (e : Event) :
  In e (trace (pullIfPossible remote branch rerun) g) ->
  In e [EvRevParseUpstream; EvLsRemote remote branch; EvPull None;
        EvPull (Some (remote, branch)); EvStatus]
  \/ exists s, e = EvStderr s.
Proof.
  cbv [trace pullIfPossible getUpstreamRef remoteBranchExists git_pull on_failure
       bind ret throw query emit catch].
  destruct (normalize_upstream (r_upstream g)); cbn;
    [|destruct (r_ls_remote g remote branch) as [o|]; cbn;
      [destruct (String.eqb (trim o) "")|]; cbn];
    destruct (r_pull_ok g); cbn; try destruct (Nat.eqb (length (r_conflicted g)) 0); cbn;
    close_events.
Qed.

Lemma getPreferredRemote_events (g : Repo) (e : Event) :
  In e (trace getPreferredRemote g) -> In e [EvRevParseUpstream; EvGetRemotes].
Proof.
  cbv [trace getPreferredRemote getUpstreamRef bind ret throw query].
  destruct (normalize_upstream (r_upstream g)) as [u|]; cbn -[existsb];
    [destruct (getRemoteFromUpstream u); cbn -[existsb]|];
    try match goal with |- context [existsb ?f ?l] => destruct (existsb f l) end; cbn;
    try destruct (r_remotes g); cbn;
    intros H; repeat destruct H as [H|H]; subst; cbn; tauto.
Qed.

Lemma pushCurrentBranch_run (g : Repo) (remote branch : string) :
  pushCurrentBranch remote branch g
  = ([EvRevParseUpstream;
      EvPush remote branch (if isSome (normalize_upstream (r_upstream g)) then [] else ["-u"])],
     inr tt).
Proof. reflexivity. Qed.

Lemma commitIfDirty_no_conflict (options : CommitOptions) (g : Repo) (n : string) :
  outcome (commitIfDirty options) g <> inl (EConflict n).
Proof. unfold outcome. run_m. split_conds. all: discriminate. Qed.

Lemma getPreferredRemote_no_conflict (g : Repo) (n : string) :
  outcome getPreferredRemote g <> inl (EConflict n).
Proof.
  cbv [outcome getPreferredRemote getUpstreamRef bind ret throw query].
  destruct (normalize_upstream (r_upstream g)) as [u|]; cbn -[existsb];
    [destruct (getRemoteFromUpstream u); cbn -[existsb]|];
    try match goal with |- context [existsb ?f ?l] => destruct (existsb f l) end; cbn;
    try destruct (r_remotes g); cbn; discriminate.
Qed.

Lemma in_trace_bind {A B} (m : M A) (f : A -> M B) (g : Repo) (e : Event) :
  In e (trace (bind m f) g) ->
  In e (trace m g) \/ exists a, outcome m g = inr a /\ In e (trace (f a) g).
Proof.
  unfold trace, outcome, bind. destruct (m g) as [t [err|a]]; cbn; [tauto|].
  destruct (f a g) as [t2 r2] eqn:Ef; cbn. rewrite in_app_iff. intros [H|H]; [left; exact H|].
  right. exists a. split; [reflexivity|]. rewrite Ef. exact H.
Qed.

Ltac trace_cases H :=
  repeat match type of H with
  | In _ (trace (bind _ _) _) =>
      apply in_trace_bind in H; destruct H as [H|[?a [?Ea H]]]
  | In _ (trace (if ?b then _ else _) _) => destruct b
  | In _ (trace (throw _) _) => destruct H
  | In _ (trace (ret _) _) => destruct H
  | In _ (trace (query _ _) _) => destruct H as [H|[]]
  | In _ (trace (emit _) _) => destruct H as [H|[]]
  end.

(** [toSelf] never fetches, merges, reads a remote URL or runs a merge
    request tool, and every push, remote-branch check and explicit pull
    it makes is for the current branch. *)
Theorem toSelf_stays_on_branch (options : ToSelfOptions) (g : Repo) (e : Event) :
  In e (trace (toSelf options) g) ->
  match e with
  | EvFetch _ _ | EvMerge _ | EvRemoteGetUrl _ | EvWhich _ | EvRun _ _ => False
  | EvPush _ b _ | EvLsRemote _ b | EvPull (Some (_, b)) => b = r_current g
  | _ => True
  end.
Proof.
  intros H. unfold toSelf in H. trace_cases H.
  all: repeat match goal with
         | E : outcome (query _ _) _ = inr _ |- _ => cbn in E; injection E as <-
         end.
  all: try (subst e; exact I).
  - apply commitIfDirty_events in H as [H|[m ->]]; [|exact I].
    repeat destruct H as [H|H]; subst; try exact I; contradiction.
  - apply getPreferredRemote_events in H.
    repeat destruct H as [H|H]; subst; try exact I; contradiction.
  - apply pullIfPossible_events in H as [H|[s ->]]; [|exact I].
    repeat destruct H as [H|H]; subst; try reflexivity; try exact I; contradiction.
  - unfold trace in H. rewrite pushCurrentBranch_run in H; cbn in H.
    repeat destruct H as [H|H]; subst; try reflexivity; try exact I; contradiction.
Qed.

Lemma toSelf_stays_on_branch_witness :
  In (EvPush "origin" "feat-x" [])
     (trace (toSelf {| selfCommitMessage := Some "feat: x"; selfCommitType := None |}) repo0)
  /\ "feat-x" = r_current repo0.
Proof.
  assert (H : In (EvPush "origin" "feat-x" [])
                 (trace (toSelf {| selfCommitMessage := Some "feat: x"; selfCommitType := None |})
                    repo0)) by in_concrete.
  split; [exact H|]. exact (toSelf_stays_on_branch _ repo0 _ H).
Defined.

Ltac cbn_flow :=
  cbn -[commitIfDirty getPreferredRemote pullIfPossible pushCurrentBranch createMergeRequest
        parseRemoteUrl trim].
Ltac cbn_flow_in H :=
  cbn -[commitIfDirty getPreferredRemote pullIfPossible pushCurrentBranch createMergeRequest
        parseRemoteUrl trim] in H |- *.

(** Away from the target branch, [toMain] runs the [toSelf] flow with the
    same message and type; when that succeeds it then reads the
    preferred remote's URL and creates the merge request, whose result is
    the result of [toMain]; when it fails, [toMain] stops with the same
    error (a conflict is reported for [to-main]). *)
Theorem toMain_extends_toSelf (options : ToMainOptions) (g : Repo) :
  r_current g <> target_branch options ->
  let selfOptions := {| selfCommitMessage := mainCommitMessage options;
                        selfCommitType := mainCommitType options |} in
  (forall remote, outcome (toSelf selfOptions) g = inr tt ->
     outcome getPreferredRemote g = inr remote ->
     let mr := createMergeRequest (parseRemoteUrl (trim (r_remote_url g remote)))
                 (r_current g) (target_branch options) in
     toMain options g
     = (trace (toSelf selfOptions) g ++ EvRemoteGetUrl remote :: trace mr g, outcome mr g)%list)
  /\ (forall err, outcome (toSelf selfOptions) g = inl err ->
        toMain options g
        = (trace (toSelf selfOptions) g,
           inl (match err with EConflict _ => EConflict "to-main" | _ => err end))).
Proof.
  intros Hne selfOptions. subst selfOptions.
  cbv [toMain toSelf trace outcome bind throw ret query emit].
  destruct (r_is_repo g); cbn_flow; [|split; [discriminate|intros err E; injection E as <-; reflexivity]].
  destruct (String.eqb (r_current g) "" || String.eqb (r_current g) "HEAD"); cbn_flow;
    [split; [discriminate|intros err E; injection E as <-; reflexivity]|].
  rewrite (string_eqb_neq _ _ Hne).
  match goal with |- context [commitIfDirty ?o g] =>
    assert (C := fun n => commitIfDirty_no_conflict o g n);
    unfold outcome in C; destruct (commitIfDirty o g) as [t1 [e1|[]]]; cbn_flow_in C
  end;
    [split; [discriminate|intros err E; injection E as <-];
     destruct e1; try reflexivity; exfalso; eapply C; reflexivity|].
  assert (C2 := getPreferredRemote_no_conflict g); unfold outcome in C2.
  destruct (getPreferredRemote g) as [t2 [e2|remote]]; cbn_flow_in C2;
    [split; [discriminate|intros err E; injection E as <-];
     destruct e2; try reflexivity; exfalso; eapply C2; reflexivity|].
  destruct (pullIfPossible_rerun g remote (r_current g) "to-self" "to-main") as [P1 P2].
  destruct (pullIfPossible remote (r_current g) "to-self" g) as [t3 r3].
  destruct (pullIfPossible remote (r_current g) "to-main" g) as [t3' r3'].
  cbn in P1, P2. subst t3' r3'.
  destruct r3 as [e3|[]]; cbn_flow.
  - split; [discriminate|]. intros err E; injection E as <-. destruct e3; reflexivity.
  - rewrite pushCurrentBranch_run. cbn_flow. split; [|discriminate].
    intros r' _ E. injection E as <-.
    destruct (createMergeRequest _ _ _ g) as [t5 r5]; cbn_flow.
    rewrite <- !app_assoc. reflexivity.
Qed.

Lemma toMain_extends_toSelf_witness :
  toMain {| branch := None; mainCommitMessage := Some "feat: x"; mainCommitType := None |} repo0
  = (trace (toSelf {| selfCommitMessage := Some "feat: x"; selfCommitType := None |}) repo0
     ++ EvRemoteGetUrl "origin"
     :: trace (createMergeRequest (parseRemoteUrl (trim (r_remote_url repo0 "origin")))
                 "feat-x" "main") repo0,
     outcome (createMergeRequest (parseRemoteUrl (trim (r_remote_url repo0 "origin")))
                "feat-x" "main") repo0)%list.
Proof.
  exact (proj1 (toMain_extends_toSelf
                  {| branch := None; mainCommitMessage := Some "feat: x"; mainCommitType := None |}
                  repo0 ltac:(vm_compute; discriminate)) "origin" eq_refl eq_refl).
Defined.

(** [createMergeRequest] runs only the first candidate tool found on the
    PATH, with that tool's arguments, and reports a missing tool exactly
    when no candidate is on the PATH. *)
Theorem createMergeRequest_runs_first_available (g : Repo) (parsed : option ParsedRemote)
    (sourceBranch targetBranch : string) :
  let tr := trace (createMergeRequest parsed sourceBranch targetBranch) g in
  (forall tool args, In (EvRun tool args) tr ->
     find (r_on_path g) (mr_candidates parsed) = Some tool
     /\ args = tool_args tool sourceBranch targetBranch)
  /\ ((exists hint, outcome (createMergeRequest parsed sourceBranch targetBranch) g
                    = inl (ENoTool hint))
      <-> find (r_on_path g) (mr_candidates parsed) = None).
Proof.
  cbv zeta.
  unfold createMergeRequest, mr_candidates.
  destruct (option_map provider parsed) as [[| |]|];
  cbv [try_tools commandExists runCommandCapture trace outcome bind ret throw query emit find];
  cbn -[glab_args gh_args find_url trim mr_url tool_failure no_tool_hint];
  repeat (match goal with
         | |- context [r_on_path g ?tool] => destruct (r_on_path g tool)
         | |- context [r_run g ?tool ?args] =>
             destruct (r_run g tool args) as [[? ?] ?]
         | |- context [if Nat.eqb ?c 0 then _ else _] => destruct (Nat.eqb c 0)
         | |- context [match find_url ?s with Some _ => _ | None => _ end] => destruct (find_url s)
         | |- context [if String.eqb (trim ?s) "" then _ else _] => destruct (String.eqb (trim s) "")
         | |- context [match mr_url ?p ?s ?t with Some _ => _ | None => _ end] =>
             destruct (mr_url p s t)
         end;
  cbn -[glab_args gh_args find_url trim mr_url tool_failure no_tool_hint]).
  all: split;
    [ intros tool args H; cbn in H;
      repeat match type of H with _ \/ _ => destruct H as [H|H] end;
      first [ discriminate H | contradiction | injection H as <- <-; split; reflexivity ]
    | split; [intros [hint H]; first [reflexivity | discriminate H]
             | intros H; first [discriminate H | eexists; reflexivity]] ].
Qed.

Lemma try_tools_first_success (g : Repo) (mrUrl : option string) (s t : string)
    (pre : list string) (tool : string) (post : list string) (stdout stderr : string) :
  tool = "glab" \/ tool = "gh" ->
  forallb (fun c => negb (r_on_path g c)) pre = true ->
  r_on_path g tool = true ->
  r_run g tool (tool_args tool s t) = (0, stdout, stderr) ->
  try_tools mrUrl s t (pre ++ tool :: post) g
  = (map EvWhich pre ++ [EvWhich tool; EvRun tool (tool_args tool s t)]
     ++ match (if String.eqb tool "glab"
               then match find_url stdout with Some u => Some u | None => mrUrl end
               else if String.eqb (trim stdout) "" then mrUrl else Some (trim stdout)) with
        | Some u => [EvSuccess ((if String.eqb tool "glab" then "Merge request created: "
                                 else "Pull request created: ") ++ u)]
        | None => []
        end, inr tt)%list.
Proof.
  intros Htool Hpre Hon Hrun.
  induction pre as [|c pre IH].
  - cbn [app try_tools]. unfold commandExists, runCommandCapture.
    cbv [bind ret throw query emit]. rewrite Hon. cbn [negb].
    destruct Htool as [->| ->]; cbn [String.eqb Ascii.eqb Bool.eqb andb];
      unfold tool_args in Hrun |- *; cbn [String.eqb Ascii.eqb Bool.eqb andb] in Hrun |- *;
      rewrite Hrun; cbn -[glab_args gh_args find_url trim];
      [destruct (find_url stdout); [reflexivity|destruct mrUrl; reflexivity]
      |destruct (String.eqb (trim stdout) ""); [destruct mrUrl|]; reflexivity].
  - cbn [forallb] in Hpre. apply andb_true_iff in Hpre as [Hc Hpre].
    apply negb_true_iff in Hc.
    cbn [app try_tools]. unfold commandExists at 1.
    cbv [bind query]. rewrite Hc. cbn [negb].
    rewrite (IH Hpre). reflexivity.
Qed.

(** When the first candidate tool on the PATH succeeds, [createMergeRequest]
    succeeds after probing the earlier candidates and running that tool
    once, and reports the URL printed by the tool (found in the output
    for glab, the trimmed output for gh), or else the manual URL. *)
Theorem createMergeRequest_first_tool_success (g : Repo) (parsed : option ParsedRemote)
    (sourceBranch targetBranch : string) (pre : list string) (tool : string)
    (post : list string) (stdout stderr : string) :
  mr_candidates parsed = (pre ++ tool :: post)%list ->
  forallb (fun c => negb (r_on_path g c)) pre = true ->
  r_on_path g tool = true ->
  r_run g tool (tool_args tool sourceBranch targetBranch) = (0, stdout, stderr) ->
  let mrUrl := mr_url parsed sourceBranch targetBranch in
  createMergeRequest parsed sourceBranch targetBranch g
  = (map EvWhich pre ++ [EvWhich tool; EvRun tool (tool_args tool sourceBranch targetBranch)]
     ++ match (if String.eqb tool "glab"
               then match find_url stdout with Some u => Some u | None => mrUrl end
               else if String.eqb (trim stdout) "" then mrUrl else Some (trim stdout)) with
        | Some u => [EvSuccess ((if String.eqb tool "glab" then "Merge request created: "
                                 else "Pull request created: ") ++ u)]
        | None => []
        end, inr tt)%list.
Proof.
  intros Hc Hpre Hon Hrun mrUrl.
  assert (Ht : tool = "glab" \/ tool = "gh").
  { apply (mr_candidates_tools parsed). rewrite Hc. apply in_elt. }
  unfold createMergeRequest. rewrite Hc.
  apply (try_tools_first_success g _ _ _ pre tool post stdout stderr); assumption.
Qed.

Definition repo_gh_ok : Repo :=
  {| r_is_repo := true; r_current := "feat-x"; r_status_files := []; r_staged := "";
     r_tty := false; r_subject_answer := ""; r_type_answer := ""; r_scope_answer := "";
     r_upstream := Some "origin/feat-x"; r_remotes := ["origin"];
     r_ls_remote := fun _ _ => None; r_pull_ok := true; r_fetch_ok := true;
     r_merge_ok := true; r_conflicted := [];
     r_remote_url := fun _ => "git@github.com:acme/widget.git";
     r_on_path := fun _ => true;
     r_run := fun _ _ => (0, "https://github.com/acme/widget/pull/7" ++ String "010" "", "") |}.

Lemma createMergeRequest_first_tool_success_witness :
  createMergeRequest (parseRemoteUrl "git@github.com:acme/widget.git") "feat-x" "main" repo_gh_ok
  = ([EvWhich "gh"; EvRun "gh" (gh_args "feat-x" "main");
      EvSuccess "Pull request created: https://github.com/acme/widget/pull/7"], inr tt).
Proof.
  exact (createMergeRequest_first_tool_success repo_gh_ok
           (parseRemoteUrl "git@github.com:acme/widget.git") "feat-x" "main" [] "gh" ["glab"]
           ("https://github.com/acme/widget/pull/7" ++ String "010" "") ""
           eq_refl eq_refl eq_refl eq_refl).
Defined.

Lemma hex_digit_unreserved (n : nat) : n < 16 -> uri_unreserved (hex_digit n) = true.
Proof.
  intros H. do 16 (destruct n as [|n]; [vm_compute; reflexivity|]). lia.
Qed.

Lemma hex_digit_inj (n m : nat) : n < 16 -> m < 16 -> hex_digit n = hex_digit m -> n = m.
Proof.
  intros Hn Hm.
  do 16 (destruct n as [|n]; [do 16 (destruct m as [|m]; [vm_compute; first [reflexivity | discriminate]|]); lia|]).
  lia.
Qed.

Lemma percent_reserved : uri_unreserved "%" = false.
Proof. reflexivity. Qed.

Lemma encode_escape (c : ascii) :
  nat_of_ascii c / 16 < 16 /\ nat_of_ascii c mod 16 < 16.
Proof.
  pose proof (nat_ascii_bounded c). split.
  - apply Nat.Div0.div_lt_upper_bound. lia.
  - apply Nat.mod_upper_bound. lia.
Qed.

(** [encodeURIComponent] produces only unreserved characters and [%],
    leaves a string of unreserved characters unchanged, and is injective. *)
Theorem encodeURIComponent_safe_injective :
  (forall s, string_forall (fun c => uri_unreserved c || Ascii.eqb c "%") (encodeURIComponent s) = true)
  /\ (forall s, string_forall uri_unreserved s = true -> encodeURIComponent s = s)
  /\ (forall a b, encodeURIComponent a = encodeURIComponent b -> a = b).
Proof.
  split; [|split].
  - induction s as [|c s IH]; [reflexivity|]. cbn [encodeURIComponent].
    destruct (uri_unreserved c) eqn:E; cbn [string_forall].
    + rewrite E, IH. reflexivity.
    + destruct (encode_escape c) as [H1 H2].
      rewrite (hex_digit_unreserved _ H1), (hex_digit_unreserved _ H2), IH. reflexivity.
  - induction s as [|c s IH]; [reflexivity|]. cbn [string_forall encodeURIComponent].
    intros H. apply andb_prop in H as [Hc Hs]. rewrite Hc, IH; auto.
  - induction a as [|c a IH]; intros b.
    + destruct b as [|d b]; [reflexivity|]. cbn [encodeURIComponent].
      destruct (uri_unreserved d); discriminate.
    + destruct b as [|d b]; cbn [encodeURIComponent].
      * destruct (uri_unreserved c); discriminate.
      * destruct (uri_unreserved c) eqn:Ec, (uri_unreserved d) eqn:Ed; intros H.
        -- injection H as -> H. f_equal. apply IH. exact H.
        -- injection H as -> H. rewrite percent_reserved in Ec. discriminate.
        -- injection H as <- H. rewrite percent_reserved in Ed. discriminate.
        -- injection H as H1 H2 H. destruct (encode_escape c) as [C1 C2], (encode_escape d) as [D1 D2].
           apply hex_digit_inj in H1; [|assumption|assumption].
           apply hex_digit_inj in H2; [|assumption|assumption].
           assert (Hcd : nat_of_ascii c = nat_of_ascii d).
           { change (nat_of_ascii c / 16 = nat_of_ascii d / 16) in H1.
             change (nat_of_ascii c mod 16 = nat_of_ascii d mod 16) in H2.
             pose proof (Nat.div_mod_eq (nat_of_ascii c) 16) as A.
             pose proof (Nat.div_mod_eq (nat_of_ascii d) 16) as B.
             rewrite H1, H2 in A. congruence. }
           rewrite <- (ascii_nat_embedding c), <- (ascii_nat_embedding d), Hcd.
           f_equal. apply IH. exact H.
Qed.

Lemma split_not_nil (c : ascii) (s : string) : split c s <> [].
Proof.
  destruct s as [|d r]; cbn; [discriminate|].
  destruct (split c r) as [|w ws]; [discriminate|]. destruct (Ascii.eqb d c); discriminate.
Qed.

Lemma split_in_no_sep (c : ascii) (s w : string) :
  In w (split c s) -> string_exists (fun d => Ascii.eqb d c) w = false.
Proof.
  revert w. induction s as [|d r IH]; intros w; cbn.
  - intros [<-|[]]. reflexivity.
  - destruct (split c r) as [|w' ws] eqn:E; [exfalso; exact (split_not_nil c r E)|].
    destruct (Ascii.eqb d c) eqn:Ed.
    + intros [<-|H]; [reflexivity|]. apply IH. exact H.
    + intros [<-|H]; [|apply IH; right; exact H].
      cbn. rewrite Ed. apply IH. left. reflexivity.
Qed.

Lemma split_word (c : ascii) (w : string) :
  string_exists (fun d => Ascii.eqb d c) w = false -> split c w = [w].
Proof.
  induction w as [|d w IH]; [reflexivity|]. cbn.
  intros H. apply orb_false_elim in H as [Hd Hw]. rewrite (IH Hw), Hd. reflexivity.
Qed.

Lemma split_app_sep (c : ascii) (w r : string) :
  string_exists (fun d => Ascii.eqb d c) w = false ->
  split c (w ++ String c r) = w :: split c r.
Proof.
  induction w as [|d w IH]; cbn.
  - intros _. rewrite Ascii.eqb_refl.
    destruct (split c r) as [|x xs] eqn:E; [exfalso; exact (split_not_nil c r E)|]. reflexivity.
  - intros H. apply orb_false_elim in H as [Hd Hw]. rewrite (IH Hw), Hd. reflexivity.
Qed.

Lemma split_join (c : ascii) (ws : list string) :
  ws <> [] -> Forall (fun w => string_exists (fun d => Ascii.eqb d c) w = false) ws ->
  split c (join (String c "") ws) = ws.
Proof.
  induction ws as [|x [|y rest] IH]; intros Hne Hall; [contradiction| |].
  - inversion Hall; subst. apply split_word. assumption.
  - inversion Hall as [|? ? Hx Hrest]; subst.
    change (join (String c "") (x :: y :: rest)) with (x ++ String c "" ++ join (String c "") (y :: rest)).
    cbn [append]. rewrite split_app_sep by exact Hx. f_equal. apply IH; [discriminate|exact Hrest].
Qed.

Lemma join_app_last (sep : string) (xs : list string) (y : string) :
  xs <> [] -> join sep (xs ++ [y]) = join sep xs ++ sep ++ y.
Proof.
  induction xs as [|x [|x2 rest] IH]; intros Hne; [contradiction|reflexivity|].
  change (join sep ((x :: x2 :: rest) ++ [y])) with (x ++ sep ++ join sep ((x2 :: rest) ++ [y])).
  change (join sep (x :: x2 :: rest)) with (x ++ sep ++ join sep (x2 :: rest)).
  rewrite IH by discriminate. rewrite !sappend_assoc. reflexivity.
Qed.

Lemma removelast_last_app (xs : list string) :
  xs <> [] -> xs = (removelast xs ++ [last xs ""])%list.
Proof. intros H. apply app_removelast_last. exact H. Qed.

(** A remote parsed by [parseRemoteUrl] has a non-empty host, an owner path
    of at least one segment and a repository name, none empty or
    containing [/], which split back into those segments; the provider
    follows the host. *)
Theorem parseRemoteUrl_shape (remoteUrl : string) (p : ParsedRemote) :
  parseRemoteUrl remoteUrl = Some p ->
  host p <> ""
  /\ (exists owner, owner <> []
       /\ Forall (fun w => w <> "" /\ string_exists (fun d => Ascii.eqb d "/") w = false)
                 (owner ++ [repo p])
       /\ ownerPath p = join "/" owner
       /\ split "/" (ownerPath p ++ "/" ++ repo p) = (owner ++ [repo p])%list)
  /\ provider p = (if includes "github" (host p) then github
                   else if includes "gitlab" (host p) then gitlab else unknown).
Proof.
  unfold parseRemoteUrl.
  destruct (String.eqb (trim remoteUrl) ""); [discriminate|].
  destruct (host_and_path (trim remoteUrl)) as [[h path]|]; [|discriminate].
  destruct (String.eqb h "") eqn:Eh; [discriminate|]. cbn [orb].
  destruct (String.eqb path ""); [discriminate|].
  destruct (length (path_parts path) <? 2) eqn:El; [discriminate|].
  intros H; injection H as <-. cbn [host ownerPath repo provider].
  apply Nat.ltb_ge in El. apply String.eqb_neq in Eh.
  split; [exact Eh|]. split; [|reflexivity].
  set (parts := path_parts path) in *.
  assert (Hall : Forall (fun w => w <> "" /\ string_exists (fun d => Ascii.eqb d "/") w = false) parts).
  { apply Forall_forall. intros w Hw. unfold parts, path_parts in Hw.
    apply filter_In in Hw as [Hw Hne]. split.
    - intros ->. discriminate Hne.
    - exact (split_in_no_sep _ _ _ Hw). }
  assert (Hparts : parts <> []) by (intros E; rewrite E in El; cbn in El; lia).
  assert (Hsplit := removelast_last_app parts Hparts).
  exists (removelast parts). unfold last_or_empty. rewrite <- Hsplit.
  split; [|split; [exact Hall|split; [reflexivity|]]].
  - intros E. rewrite E in Hsplit. cbn in Hsplit. rewrite Hsplit in El. cbn in El. lia.
  - assert (Hown : removelast parts <> []).
    { intros E. rewrite E in Hsplit. cbn in Hsplit. rewrite Hsplit in El. cbn in El. lia. }
    rewrite <- join_app_last by exact Hown. rewrite <- Hsplit.
    apply split_join; [exact Hparts|].
    eapply Forall_impl; [|exact Hall]. intros w [_ Hw]. exact Hw.
Qed.

Lemma parseRemoteUrl_shape_witness :
  parseRemoteUrl "git@github.com:acme/widget.git"
    = Some {| host := "github.com"; ownerPath := "acme"; repo := "widget"; provider := github |}
  /\ host {| host := "github.com"; ownerPath := "acme"; repo := "widget"; provider := github |} <> "".
Proof.
  assert (H : parseRemoteUrl "git@github.com:acme/widget.git"
                = Some {| host := "github.com"; ownerPath := "acme"; repo := "widget";
                          provider := github |}) by (vm_compute; reflexivity).
  split; [exact H|]. exact (proj1 (parseRemoteUrl_shape _ _ H)).
Defined.

Lemma str_length_app (x y : string) : String.length (x ++ y) = String.length x + String.length y.
Proof. induction x as [|c x IH]; cbn; [reflexivity|]. rewrite IH. reflexivity. Qed.


Lemma string_exists_eqb_sym (c : ascii) (s : string) :
  string_exists (fun d => Ascii.eqb d c) s = string_exists (Ascii.eqb c) s.
Proof.
  induction s as [|d s IH]; [reflexivity|]. cbn. rewrite IH, Ascii.eqb_sym. reflexivity.
Qed.

Lemma index_of_from_shift (c : ascii) (p s : string) :
  index_of_from c (p ++ s) (String.length p)
  = option_map (Nat.add (String.length p)) (index_of_from c s 0).
Proof.
  induction p as [|d p IH]; cbn.
  - destruct (index_of_from c s 0); reflexivity.
  - rewrite IH. destruct (index_of_from c s 0); reflexivity.
Qed.

Lemma substring_app_skip (x y : string) (n : nat) :
  substring (String.length x) n (x ++ y) = substring 0 n y.
Proof. induction x as [|c x IH]; [reflexivity|]. cbn. exact IH. Qed.

Lemma get_app_len (x r : string) (c : ascii) : get (String.length x) (x ++ String c r) = Some c.
Proof. induction x as [|d x IH]; [reflexivity|]. cbn. exact IH. Qed.

Lemma substring_all (s : string) : substring 0 (String.length s) s = s.
Proof. induction s as [|c s IH]; [reflexivity|]. cbn. rewrite IH. reflexivity. Qed.

Lemma strip_end_no_sep (c : ascii) (y : string) :
  string_exists (fun d => Ascii.eqb d c) y = false -> strip_end c y = y.
Proof.
  induction y as [|d y IH]; [reflexivity|]. cbn.
  intros H. apply orb_false_elim in H as [Hd Hy]. rewrite (IH Hy).
  rewrite Ascii.eqb_sym, Hd. reflexivity.
Qed.

Lemma strip_end_app (c : ascii) (x y : string) :
  strip_end c y <> "" -> strip_end c (x ++ y) = x ++ strip_end c y.
Proof.
  intros Hy. induction x as [|d x IH]; [reflexivity|]. cbn. rewrite IH.
  destruct (x ++ strip_end c y) eqn:E; [|rewrite andb_false_r; reflexivity].
  destruct x; discriminate E || (cbn in E; contradiction).
Qed.

Lemma strip_git_suffix_app (p : string) : strip_git_suffix (p ++ ".git") = p.
Proof.
  unfold strip_git_suffix. rewrite str_length_app. cbn [String.length].
  replace (String.length p + 4 - 4) with (String.length p) by lia.
  rewrite substring_app_skip, substring_app_prefix.
  replace (4 <=? String.length p + 4) with true by (symmetry; apply Nat.leb_le; lia).
  reflexivity.
Qed.

Lemma filter_nonempty_id (ws : list string) :
  Forall (fun w => w <> "") ws -> filter (fun w => negb (String.eqb w "")) ws = ws.
Proof.
  induction 1 as [|w ws Hw Hws IH]; [reflexivity|]. cbn.
  apply String.eqb_neq in Hw. rewrite Hw. cbn. rewrite IH. reflexivity.
Qed.

Lemma line_terminator_space (c : ascii) : is_line_terminator c = true -> is_space c = true.
Proof.
  destruct c as [[] [] [] [] [] [] [] []]; vm_compute;
    first [intros; reflexivity | intros H; discriminate H].
Qed.

Lemma trim_start_app_head (x y : string) :
  x <> "" -> string_exists is_space x = false -> trim_start (x ++ y) = x ++ y.
Proof.
  destruct x as [|c x]; [contradiction|]. cbn. intros _ H.
  apply orb_false_elim in H as [Hc _]. rewrite Hc. reflexivity.
Qed.

(** [parseRemoteUrl] reads back the parts of an scp-style remote
    [user@host:owner/.../repo.git] whose user has no [@] or white space,
    whose host has no [:], and whose segments are non-empty, without [/]
    and without white space. *)
Theorem parseRemoteUrl_scp_roundtrip (user h r : string) (owner : list string) :
  user <> "" -> string_exists (fun d => Ascii.eqb d "@") user = false ->
  string_exists is_space user = false ->
  h <> "" -> string_exists (fun d => Ascii.eqb d ":") h = false ->
  owner <> [] ->
  Forall (fun w => w <> "" /\ string_exists (fun d => Ascii.eqb d "/") w = false
                   /\ string_exists is_space w = false) (owner ++ [r]) ->
  parseRemoteUrl (user ++ "@" ++ h ++ ":" ++ join "/" (owner ++ [r]) ++ ".git")
  = Some {| host := h; ownerPath := join "/" owner; repo := r;
            provider := if includes "github" h then github
                        else if includes "gitlab" h then gitlab else unknown |}.
Proof.
  intros Hu Hu_at Hu_sp Hh Hh_col Hown Hws.
  set (P := join "/" (owner ++ [r])).
  set (X := user ++ "@" ++ h ++ ":").
  assert (Hsplit : user ++ "@" ++ h ++ ":" ++ P ++ ".git" = X ++ P ++ ".git").
  { unfold X. rewrite !sappend_assoc. reflexivity. }
  (* the first word of the path starts with a character that is not white space *)
  assert (HP : exists c P', P = String c P' /\ is_space c = false).
  { destruct owner as [|w0 ows]; [contradiction|].
    inversion Hws as [|? ? [Hw0 [_ Hw0s]] _]; subst.
    unfold P. rewrite <- app_comm_cons.
    destruct w0 as [|c w0]; [contradiction|]. cbn in Hw0s. apply orb_false_elim in Hw0s as [Hc _].
    destruct (ows ++ [r])%list; cbn; eexists _, _; split; [reflexivity| |reflexivity|]; exact Hc. }
  destruct HP as (c & P' & HPc & Hc).
  unfold parseRemoteUrl.
  assert (Htrim : trim (user ++ "@" ++ h ++ ":" ++ P ++ ".git") = user ++ "@" ++ h ++ ":" ++ P ++ ".git").
  { unfold trim. rewrite trim_start_app_head by assumption.
    rewrite Hsplit, <- sappend_assoc. apply trim_end_app. discriminate. }
  rewrite Htrim.
  replace (String.eqb (user ++ "@" ++ h ++ ":" ++ P ++ ".git") "") with false
    by (destruct user; [contradiction|reflexivity]).
  assert (Hat : index_of_from "@" (user ++ "@" ++ h ++ ":" ++ P ++ ".git") 0 = Some (String.length user)).
  { apply index_of_app. rewrite <- string_exists_eqb_sym. exact Hu_at. }
  assert (Hcol : index_of_from ":" (user ++ "@" ++ h ++ ":" ++ P ++ ".git") (String.length user)
                 = Some (String.length user + S (String.length h))).
  { rewrite index_of_from_shift. cbn [append index_of_from].
    replace (Ascii.eqb ":" "@") with false by reflexivity.
    rewrite index_of_app by (rewrite <- string_exists_eqb_sym; exact Hh_col). reflexivity. }
  assert (HlenX : String.length X = S (String.length user + S (String.length h))).
  { unfold X. rewrite !str_length_app. cbn. lia. }
  unfold host_and_path, scp_like. rewrite Hat.
  destruct (String.length user) eqn:Hlu; [destruct user; [contradiction|discriminate]|].
  rewrite <- Hlu in *. rewrite Hcol.
  replace (S (String.length user) <? String.length user + S (String.length h)) with true
    by (symmetry; apply Nat.ltb_lt; destruct h; [contradiction|cbn; lia]).
  rewrite Hsplit, <- HlenX, HPc.
  change (String c P' ++ ".git") with (String c (P' ++ ".git")). rewrite get_app_len.
  replace (negb (is_line_terminator c)) with true
    by (destruct (is_line_terminator c) eqn:E; [apply line_terminator_space in E; congruence|reflexivity]).
  cbn [andb].
  change (String c (P' ++ ".git")) with (String c P' ++ ".git"). rewrite <- HPc.
  unfold slice, slice_from.
  replace (String.length user + S (String.length h) - S (String.length user)) with (String.length h) by lia.
  assert (Hhost : substring (S (String.length user)) (String.length h) (X ++ P ++ ".git") = h).
  { unfold X. rewrite !sappend_assoc, <- (sappend_assoc user "@").
    replace (S (String.length user)) with (String.length (user ++ "@")) by (rewrite str_length_app; cbn; lia).
    rewrite substring_app_skip. cbn [substring append]. apply substring_app_prefix. }
  rewrite Hhost, str_length_app.
  replace (String.length X + String.length (P ++ ".git") - String.length X) with (String.length (P ++ ".git")) by lia.
  rewrite substring_app_skip, substring_all.
  replace (String.eqb h "" || String.eqb (P ++ ".git") "") with false
    by (destruct h; [contradiction|]; destruct P; reflexivity).
  assert (Hparts : path_parts (P ++ ".git") = (owner ++ [r])%list).
  { unfold path_parts. rewrite strip_git_suffix_app.
    assert (Hr : string_exists (fun d => Ascii.eqb d "/") r = false /\ r <> "").
    { apply Forall_app in Hws as [_ Hr]. inversion Hr as [|? ? [? [? _]] _]. split; assumption. }
    destruct Hr as [Hr_sl Hr_ne].
    unfold P. rewrite join_app_last by exact Hown.
    rewrite <- sappend_assoc, strip_end_app; rewrite (strip_end_no_sep _ _ Hr_sl); [|exact Hr_ne].
    rewrite sappend_assoc, <- join_app_last by exact Hown.
    rewrite split_join; [| destruct owner; [contradiction|discriminate] |].
    - apply filter_nonempty_id. eapply Forall_impl; [|exact Hws]. cbn. tauto.
    - eapply Forall_impl; [|exact Hws]. cbn. tauto. }
  rewrite Hparts.
  replace (length (owner ++ [r]) <? 2) with false
    by (symmetry; apply Nat.ltb_ge; rewrite length_app; destruct owner; [contradiction|cbn; lia]).
  unfold last_or_empty. rewrite removelast_last, last_last. reflexivity.
Qed.

Lemma parseRemoteUrl_scp_roundtrip_witness :
  parseRemoteUrl ("git" ++ "@" ++ "gitlab.example.com" ++ ":"
                  ++ join "/" (["group"; "sub"] ++ ["project"]) ++ ".git")
  = Some {| host := "gitlab.example.com"; ownerPath := join "/" ["group"; "sub"];
            repo := "project";
            provider := if includes "github" "gitlab.example.com" then github
                        else if includes "gitlab" "gitlab.example.com" then gitlab
                        else unknown |}.
Proof.
  apply parseRemoteUrl_scp_roundtrip;
    [discriminate|reflexivity|reflexivity|discriminate|reflexivity|discriminate|].
  cbn [app].
  repeat (apply Forall_cons; [split; [discriminate|split; reflexivity]|]). apply Forall_nil.
Defined.
